(** * Route planning and trajectory following: a shallow embedding

    The Python sources are embedded function by function.  Python floats are
    idealised as real numbers ([R]); the places where the code relies on an
    infinite float ([float("inf")]) use the extended reals [xfloat] below.
    Python exceptions and loops that may run forever are made explicit by
    the [outcome] type. *)

From Stdlib Require Import Reals Lra Lia ZArith List Bool.
Import ListNotations.
Open Scope R_scope.

(* ================================================================== *)
(** * Part I: definitions *)
(* ================================================================== *)

(** ** Results of effectful code *)

Inductive exn : Type :=
| ZeroDivisionError
| IndexError
| KeyError
| ValueError
| TypeError.

(** [Ok v]: the call returns [v]; [Raise e]: it raises [e];
    [Timeout]: the loop budget of the model ran out before it returned. *)
Inductive outcome (A : Type) : Type :=
| Ok (a : A)
| Raise (e : exn)
| Timeout.

Arguments Ok {A} a.
Arguments Raise {A} e.
Arguments Timeout {A}.

Definition bind {A B : Type} (m : outcome A) (k : A -> outcome B) : outcome B :=
  match m with
  | Ok a => k a
  | Raise e => Raise e
  | Timeout => Timeout
  end.

Notation "x <- m ;; k" := (bind m (fun x => k))
  (at level 61, m at next level, right associativity).

Notation "' pat <- m ;; k" := (bind m (fun x => match x with pat => k end))
  (at level 61, pat pattern, m at next level, right associativity).

(** [l[i]] for a non-negative index. *)
Definition getitem {A : Type} (l : list A) (i : nat) : outcome A :=
  match nth_error l i with
  | Some a => Ok a
  | None => Raise IndexError
  end.

Definition is_empty {A : Type} (l : list A) : bool :=
  match l with
  | [] => true
  | _ :: _ => false
  end.

(** ** Numbers as Python computes with them *)

Module PyNum.

Definition Rleb (a b : R) : bool := if Rle_dec a b then true else false.
Definition Rltb (a b : R) : bool := if Rlt_dec a b then true else false.
Definition Reqb (a b : R) : bool := if Req_dec_T a b then true else false.

(** Python's [round(x)] with one argument: nearest integer, ties to even. *)
Definition round (v : R) : Z :=
  let f := Zfloor v in
  let d := v - IZR f in
  if Rlt_dec d (1 / 2) then f
  else if Rlt_dec (1 / 2) d then (f + 1)%Z
  else if Z.even f then f else (f + 1)%Z.

(** [math.atan2(y, x)]: the angle of the point [(x, y)], in (-pi, pi]. *)
Definition atan2 (b a : R) : R :=
  if Rlt_dec 0 a then atan (b / a)
  else if Rlt_dec a 0 then
    (if Rle_dec 0 b then atan (b / a) + PI else atan (b / a) - PI)
  else if Rlt_dec 0 b then PI / 2
  else if Rlt_dec b 0 then - (PI / 2)
  else 0.

(** [math.hypot(a, b)]. *)
Definition hypot (a b : R) : R := sqrt (a * a + b * b).

(** [math.radians(d)]. *)
Definition radians (d : R) : R := d * PI / 180.

(** Python's [a / b] on floats: a zero divisor raises. *)
Definition pydiv (a b : R) : outcome R :=
  if Req_dec_T b 0 then Raise ZeroDivisionError else Ok (a / b).

End PyNum.

(** ** Extended floats

    [float("inf")] and the values numpy derives from it. *)

Inductive xfloat : Type :=
| Fin (r : R)
| PInf
| NInf
| NaN.

Module XFloat.
Import PyNum.

(** The sign of a real as numpy sees it when it multiplies or divides an
    infinity. *)
Definition signed_inf (positive : bool) : xfloat := if positive then PInf else NInf.

(** [a < b] *)
Definition ltb (a b : xfloat) : bool :=
  match a, b with
  | NaN, _ | _, NaN => false
  | Fin u, Fin v => Rltb u v
  | Fin _, PInf => true
  | Fin _, NInf => false
  | PInf, _ => false
  | NInf, NInf => false
  | NInf, _ => true
  end.

(** [a <= b] *)
Definition leb (a b : xfloat) : bool :=
  match a, b with
  | NaN, _ | _, NaN => false
  | Fin u, Fin v => Rleb u v
  | Fin _, PInf => true
  | Fin _, NInf => false
  | PInf, PInf => true
  | PInf, _ => false
  | NInf, _ => true
  end.

(** [a / b] with a numpy float64 divisor [b]: no exception, a zero divisor
    gives an infinity or nan. *)
Definition np_div (a : xfloat) (b : R) : xfloat :=
  match a with
  | NaN => NaN
  | PInf => signed_inf (Rleb 0 b)
  | NInf => signed_inf (negb (Rleb 0 b))
  | Fin u =>
      if Reqb b 0 then
        (if Reqb u 0 then NaN else signed_inf (Rltb 0 u))
      else Fin (u / b)
  end.

(** [a * b] for a finite [a]. *)
Definition mul (a : R) (b : xfloat) : xfloat :=
  match b with
  | NaN => NaN
  | Fin v => Fin (a * v)
  | PInf => if Reqb a 0 then NaN else signed_inf (Rltb 0 a)
  | NInf => if Reqb a 0 then NaN else signed_inf (negb (Rltb 0 a))
  end.

End XFloat.

(** ** space/parking_lot.py *)

Module ParkingLot.

Definition cell : Type := (Z * Z)%type.
Definition line : Type := (cell * cell)%type.

Record t : Type := mk {
  lot_width : Z;
  lot_height : Z;
  obstacles : list cell;
  obstacle_lines : list line
}.

Definition zrange (lo hi : Z) : list Z :=
  map (fun k => (lo + Z.of_nat k)%Z) (seq 0 (Z.to_nat (hi - lo))).

Open Scope Z_scope.

(** [create_outer_walls] *)
Definition create_outer_walls (m : t) : t :=
  let w := lot_width m in
  let h := lot_height m in
  mk w h
     (obstacles m
        ++ flat_map (fun x => [(x, 0); (x, h)]) (zrange 0 (w + 1))
        ++ flat_map (fun y => [(0, y); (w, y)]) (zrange 1 h))
     (obstacle_lines m
        ++ [((0, 0), (0, h)); ((0, 0), (w, 0)); ((w, 0), (w, h)); ((0, h), (w, h))]).

(** [create_horizontal_lines] *)
Definition create_horizontal_lines (m : t) : t :=
  let w := lot_width m in
  mk w (lot_height m)
     (obstacles m ++ flat_map (fun x => [(x, 17); (x, 40)]) (zrange 11 (w - 10)))
     (obstacle_lines m ++ [((11, 17), (w - 10, 17)); ((11, 40), (w - 10, 40))]).

(** One pass of the outer loop of [create_vertical_lines]. *)
Definition vertical_line_at (m : t) (x : Z) : t :=
  mk (lot_width m) (lot_height m)
     (obstacles m
        ++ flat_map (fun y => [(x * 4 + 11, y + 11); (x * 4 + 11, y + 18);
                               (x * 4 + 11, y + 34); (x * 4 + 11, y + 41);
                               (x * 4 + 11, y + 57)]) (zrange 0 6))
     (obstacle_lines m
        ++ [((x * 4 + 11, 11), (x * 4 + 11, 24));
            ((x * 4 + 11, 34), (x * 4 + 11, 47));
            ((x * 4 + 11, 57), (x * 4 + 11, 63))]).

(** [create_vertical_lines] *)
Definition create_vertical_lines (m : t) : t :=
  fold_left vertical_line_at (zrange 0 16) m.

(** [ParkingLot.__init__] *)
Definition init : t :=
  create_vertical_lines (create_horizontal_lines (create_outer_walls (mk 82 63 [] []))).

(** [get_grid_index] *)
Definition get_grid_index (m : t) (x y : Z) : Z := x + y * lot_width m.

(** [ccw] *)
Definition ccw (A B C : cell) : bool :=
  (snd C - snd A) * (fst B - fst A) >? (snd B - snd A) * (fst C - fst A).

(** [intersect] *)
Definition intersect (line1 line2 : line) : bool :=
  let A := fst line1 in
  let B := snd line1 in
  let C := fst line2 in
  let D := snd line2 in
  negb (Bool.eqb (ccw A C D) (ccw B C D)) && negb (Bool.eqb (ccw A B C) (ccw A B D)).

Definition cell_eqb (a b : cell) : bool := (fst a =? fst b) && (snd a =? snd b).

(** [is_not_crossed_obstacle] *)
Definition is_not_crossed_obstacle (m : t) (previous_node current_node : cell) : bool :=
  let is_cross_line :=
    existsb (fun obstacle_line => intersect obstacle_line (previous_node, current_node))
            (obstacle_lines m) in
  negb (existsb (cell_eqb current_node) (obstacles m))
  && ((0 <? fst current_node) && (fst current_node <? lot_width m))
  && ((0 <? snd current_node) && (snd current_node <? lot_height m))
  && negb is_cross_line.

End ParkingLot.

(** ** route_planner/geometry.py *)

Module Geometry.

(** Modelled from the spec: [route_planner.geometry.Pose] is not among the
    sources; the spec gives it as continuous position and heading
    [(x, y, theta)]. *)
Record Pose : Type := mkPose { x : R; y : R; theta : R }.

End Geometry.

(** ** route_planner/hybrid_a_star_route_planner.py *)

Module HybridAStar.
Import PyNum.
Export Geometry.

Record Node : Type := mkNode {
  pose : Pose;
  discrete_x : Z;
  discrete_y : Z;
  cost : R;
  steering : R;
  parent_node_index : Z
}.

(** [Node.__init__] *)
Definition new_Node (p : Pose) (c : R) (s : R) (parent : Z) : Node :=
  mkNode p (round (x p)) (round (y p)) c s parent.

Definition wheelbase : R := 27 / 10.
Definition steering_degree_inputs : list R := [-40; -20; -10; 0; 10; 20; 40].
Definition steering_inputs : list R := map radians steering_degree_inputs.
Definition chord_lengths : list R := [2; 1].

(** [change_radians_range] *)
Definition change_radians_range (angle : R) : R :=
  atan2 (sin angle) (cos angle).

(** [calculate_next_node] *)
Definition calculate_next_node
    (current : Node) (current_node_index : Z) (chord_length steer : R) : Node :=
  let th := change_radians_range
              (theta (pose current) + chord_length * tan steer / wheelbase) in
  let nx := x (pose current) + chord_length * cos th in
  let ny := y (pose current) + chord_length * sin th in
  new_Node (mkPose nx ny th) (cost current + chord_length) steer current_node_index.

(** Python dictionaries keyed by grid index, in insertion order. *)
Definition dict : Type := list (Z * Node).

(** [d[k]], [None] when the key is absent. *)
Fixpoint dict_get (d : dict) (k : Z) : option Node :=
  match d with
  | [] => None
  | (k', n) :: t => if (k' =? k)%Z then Some n else dict_get t k
  end.

(** [k in d] *)
Definition dict_mem (d : dict) (k : Z) : bool :=
  match dict_get d k with
  | Some _ => true
  | None => false
  end.

(** [d[k] = n]: an existing key keeps its place, a new one goes last. *)
Fixpoint dict_set (d : dict) (k : Z) (n : Node) : dict :=
  match d with
  | [] => [(k, n)]
  | (k', n') :: t => if (k' =? k)%Z then (k', n) :: t else (k', n') :: dict_set t k n
  end.

(** [del d[k]] *)
Fixpoint dict_del (d : dict) (k : Z) : dict :=
  match d with
  | [] => []
  | (k', n') :: t => if (k' =? k)%Z then dict_del t k else (k', n') :: dict_del t k
  end.

(** [min(d, key=...)] over the entries after [best]: the first entry whose
    score is the smallest. *)
Fixpoint dict_min_from (score : Node -> R) (best : Z * Node) (d : dict) : Z * Node :=
  match d with
  | [] => best
  | e :: t =>
      if Rlt_dec (score (snd e)) (score (snd best))
      then dict_min_from score e t
      else dict_min_from score best t
  end.

Record HybridAStarRoutePlanner : Type := mkPlanner {
  start_node : Node;
  goal_node : Node;
  map_instance : ParkingLot.t
}.

(** [__init__] *)
Definition init (start_pose goal_pose : Pose) (m : ParkingLot.t) : HybridAStarRoutePlanner :=
  mkPlanner (new_Node start_pose 0 0 (-1)) (new_Node goal_pose 0 0 (-1)) m.

(** The functions imported from [utils], whose source is not available, as
    parameters; each is taken to return normally. *)
Class Utils : Type := {
  transform_trajectory : list R -> list R -> list Pose;
  calculate_trajectory_distance : list Pose -> R
}.

(** [calculate_distance_to_end] *)
Definition calculate_distance_to_end (self : HybridAStarRoutePlanner) (p : Pose) : R :=
  sqrt ((x p - x (pose (goal_node self))) ^ 2 + (y p - y (pose (goal_node self))) ^ 2).

(** [calculate_heuristic_cost] *)
Definition calculate_heuristic_cost (self : HybridAStarRoutePlanner) (node : Node) : R :=
  let distance_cost := calculate_distance_to_end self (pose node) in
  let angle_cost :=
    Rabs (change_radians_range (theta (pose node) - theta (pose (goal_node self))))
    * (1 / 10) in
  let steering_cost := Rabs (steering node) * 10 in
  distance_cost + angle_cost + steering_cost.

(** The [while parent_node != -1] loop of [process_route]. *)
Fixpoint process_route_loop (fuel : nat) (closed_set : dict) (parent_node : Z)
    (rx ry : list R) : outcome (list R * list R) :=
  match fuel with
  | O => Timeout
  | S fuel' =>
      if (parent_node =? -1)%Z then Ok (rx, ry)
      else
        match dict_get closed_set parent_node with
        | None => Raise KeyError
        | Some n =>
            process_route_loop fuel' closed_set (parent_node_index n)
                               (rx ++ [x (pose n)]) (ry ++ [y (pose n)])
        end
  end.

(** [process_route], with [self.goal_node] already set to the node that
    reached the goal. *)
Definition process_route (fuel : nat) (reached : Node) (closed_set : dict)
    : outcome (list R * list R) :=
  '(rx, ry) <- process_route_loop fuel closed_set (parent_node_index reached)
                                  [x (pose reached)] [y (pose reached)] ;;
  Ok (rev rx, rev ry).

(** The list [next_nodes] of [search_route]. *)
Definition next_nodes (current_node : Node) (current_node_index : Z) : list Node :=
  flat_map (fun steer =>
              map (fun velocity =>
                     calculate_next_node current_node current_node_index velocity steer)
                  chord_lengths)
           steering_inputs.

Definition cell_of (n : Node) : ParkingLot.cell := (discrete_x n, discrete_y n).

Definition grid_index (m : ParkingLot.t) (n : Node) : Z :=
  ParkingLot.get_grid_index m (discrete_x n) (discrete_y n).

(** The body of [for next_node in next_nodes]. *)
Definition relax (m : ParkingLot.t) (current_node : Node) (closed_set : dict)
    (open_set : dict) (next_node : Node) : dict :=
  if ParkingLot.is_not_crossed_obstacle m (cell_of current_node) (cell_of next_node) then
    let next_node_index := grid_index m next_node in
    if dict_mem closed_set next_node_index then open_set
    else
      match dict_get open_set next_node_index with
      | None => dict_set open_set next_node_index next_node
      | Some known =>
          if Rlt_dec (cost next_node) (cost known)
          then dict_set open_set next_node_index next_node
          else open_set
      end
  else open_set.

Definition route_result : Type := (bool * R * list Pose)%type.

(** [return False, 0, []] *)
Definition no_route : route_result := (false, 0, []).

Section Search.
Context {utils : Utils}.

(** The [while open_set] loop of [search_route] (the plotting under
    [show_process] is left out). *)
Fixpoint search_loop (fuel : nat) (self : HybridAStarRoutePlanner)
    (open_set closed_set : dict) : outcome route_result :=
  match fuel with
  | O => Timeout
  | S fuel' =>
      match open_set with
      | [] => Ok no_route
      | first :: others =>
          let '(current_node_index, current_node) :=
            dict_min_from (fun o => cost o + calculate_heuristic_cost self o) first others in
          if Rle_dec (calculate_distance_to_end self (pose current_node)) 1 then
            '(rx, ry) <- process_route fuel' current_node closed_set ;;
            let route_trajectory := transform_trajectory rx ry in
            let total_distance := calculate_trajectory_distance route_trajectory in
            Ok (true, total_distance, route_trajectory)
          else
            let open_set := dict_del open_set current_node_index in
            let closed_set := dict_set closed_set current_node_index current_node in
            let open_set :=
              fold_left (relax (map_instance self) current_node closed_set)
                        (next_nodes current_node current_node_index) open_set in
            search_loop fuel' self open_set closed_set
      end
  end.

(** [search_route] *)
Definition search_route (fuel : nat) (self : HybridAStarRoutePlanner) : outcome route_result :=
  search_loop fuel self
    [(grid_index (map_instance self) (start_node self), start_node self)] [].

End Search.


(** *** The invariant of the search loop *)







(** What [search_route] may answer: the failure marker, or the trajectory
    through a node within one unit of the goal and all its ancestors, from
    the start node on. *)
Definition route_found {utils : Utils} (self : HybridAStarRoutePlanner)
    (reached : Node) (ancestors : list Node) : route_result :=
  let route := rev (reached :: ancestors) in
  let route_trajectory :=
    transform_trajectory (map (fun n => x (pose n)) route)
                         (map (fun n => y (pose n)) route) in
  (true, calculate_trajectory_distance route_trajectory, route_trajectory).


End HybridAStar.

(** ** route_planner/informed_trrt_star_planner.py *)

Module InformedTRRTStar.
Import PyNum.

(** Node objects live in a store and are named by their position in it, so
    that a node reached through [self.nodes], through [self.goal] and
    through another node's [parent] is one and the same object. *)
Definition ref : Type := nat.

(** Modelled from the spec: [route_planner.geometry.Node] is not among the
    sources; the planner reads and writes its attributes [x], [y], [cost]
    and [parent], builds it as [Node(x, y, 0.0)] (a default cost, by the
    comment in [smooth_path]), and a fresh node has no parent.  The heading
    the spec also lists is never read or written by this planner and is
    left out. *)
Record Node : Type := mkNode { x : R; y : R; cost : R; parent : option ref }.

Definition new_Node (nx ny c : R) : Node := mkNode nx ny c None.

Definition heap : Type := list Node.

Definition deref (h : heap) (r : ref) : Node := nth r h (new_Node 0 0 0).

Definition alloc (h : heap) (n : Node) : heap * ref := (h ++ [n], length h).

Fixpoint store (h : heap) (r : ref) (n : Node) : heap :=
  match h, r with
  | [], _ => []
  | _ :: t, O => n :: t
  | a :: t, S r' => a :: store t r' n
  end.

(** One corridor segment of [narrow_sample]: [(x1, y1, x2, y2, margin)]. *)
Definition region : Type := (R * R * R * R * R)%type.

Definition matrix : Type := ((R * R) * (R * R))%type.

Record planner : Type := mkPlanner {
  start : ref;
  goal : ref;
  map_instance : ParkingLot.t;
  max_iter : Z;
  search_radius : R;
  nodes : list ref;
  c_best : xfloat;
  x_center : R * R;
  c_min : R;
  C : matrix;
  mem : heap
}.

Definition with_mem (st : planner) (h : heap) : planner :=
  mkPlanner (start st) (goal st) (map_instance st) (max_iter st) (search_radius st)
            (nodes st) (c_best st) (x_center st) (c_min st) (C st) h.

Definition with_nodes (st : planner) (l : list ref) : planner :=
  mkPlanner (start st) (goal st) (map_instance st) (max_iter st) (search_radius st)
            l (c_best st) (x_center st) (c_min st) (C st) (mem st).

Definition with_goal (st : planner) (g : ref) : planner :=
  mkPlanner (start st) g (map_instance st) (max_iter st) (search_radius st)
            (nodes st) (c_best st) (x_center st) (c_min st) (C st) (mem st).

Definition with_c_best (st : planner) (c : xfloat) : planner :=
  mkPlanner (start st) (goal st) (map_instance st) (max_iter st) (search_radius st)
            (nodes st) c (x_center st) (c_min st) (C st) (mem st).

(** The methods inherited from [InformedRRTStar], whose source is not
    available: they are parameters of the development.  Each receives the
    planner ([self]) and is taken to return normally. *)
Class InformedRRTStar : Type := {
  rotation_to_world_frame : Node -> Node -> R -> matrix;
  sample_unit_ball : (nat -> R) -> nat -> (R * R) * nat;
  is_within_map_instance : planner -> Node -> bool;
  get_nearest_node_index : planner -> Node -> nat;
  steer : planner -> ref -> ref -> option R -> Node;
  is_collision_free : planner -> Node -> Node -> bool;
  rewire : planner -> ref -> list ref -> heap;
  generate_final_course : planner -> list R * list R
}.

(** The seed planner [ThetaStar], likewise a parameter. *)
Class ThetaStar : Type := {
  find_path : Node -> Node -> ParkingLot.t -> list R * list R
}.

Section Planner.
Context {base : InformedRRTStar} {theta_star : ThetaStar}.

(** [__init__] *)
Definition init (start_pose goal_pose : Geometry.Pose) (m : ParkingLot.t)
    (max_iter_arg : Z) (search_radius_arg : R) : planner :=
  let s := new_Node (Geometry.x start_pose) (Geometry.y start_pose) 0 in
  let g := new_Node (Geometry.x goal_pose) (Geometry.y goal_pose) 0 in
  mkPlanner 0%nat 1%nat m max_iter_arg search_radius_arg
            [0%nat] PInf
            ((x s + x g) / 2, (y s + y g) / 2)
            (hypot (x s - x g) (y s - y g))
            (rotation_to_world_frame s g (hypot (x s - x g) (y s - y g)))
            [s; g].

(** [narrow_sample] *)
Fixpoint narrow_sample_from (margin : R) (x_path y_path : list R)
    (i : nat) (count : nat) (path_region : list region) : outcome (list region) :=
  match count with
  | O => Ok path_region
  | S count' =>
      x1 <- getitem x_path i ;;
      y1 <- getitem y_path i ;;
      x2 <- getitem x_path (i + 1) ;;
      y2 <- getitem y_path (i + 1) ;;
      narrow_sample_from margin x_path y_path (S i) count'
                         (path_region ++ [(x1, y1, x2, y2, margin)])
  end.

Definition narrow_sample (st : planner) (x_path y_path : list R) : outcome (list region) :=
  let margin := search_radius st / 2 in
  narrow_sample_from margin x_path y_path 0 (length x_path - 1) [].

(** [is_within_region] *)
Fixpoint is_within_region (node : Node) (path_region : list region) : outcome bool :=
  match path_region with
  | [] => Ok false
  | (x1, y1, x2, y2, margin) :: rest =>
      d <- pydiv (Rabs ((y2 - y1) * x node - (x2 - x1) * y node + x2 * y1 - y2 * x1))
                 (hypot (y2 - y1) (x2 - x1)) ;;
      if Rleb d margin then Ok true else is_within_region node rest
  end.

(** [path_region is None or self.is_within_region(node, path_region)] *)
Definition region_admits (node : Node) (path_region : option (list region)) : outcome bool :=
  match path_region with
  | None => Ok true
  | Some pr => is_within_region node pr
  end.

(** [random.uniform(a, b)], reading the next number of the random source
    [rs] at position [cur]. *)
Definition uniform (rs : nat -> R) (cur : nat) (a b : R) : R * nat :=
  (a + (b - a) * rs cur, S cur).

(** [get_random_node] *)
Fixpoint get_random_node (fuel : nat) (st : planner) (path_region : option (list region))
    (rs : nat -> R) (cur : nat) : outcome (Node * nat) :=
  match fuel with
  | O => Timeout
  | S fuel' =>
      let '(rx, cur1) := uniform rs cur 0 (IZR (ParkingLot.lot_width (map_instance st))) in
      let '(ry, cur2) := uniform rs cur1 0 (IZR (ParkingLot.lot_height (map_instance st))) in
      let node := new_Node rx ry 0 in
      ok <- region_admits node path_region ;;
      if ok then Ok (node, cur2)
      else get_random_node fuel' st path_region rs cur2
  end.

(** [math.sqrt]: a negative argument raises. *)
Definition pysqrt (v : R) : outcome R :=
  if Rlt_dec v 0 then Raise ValueError else Ok (sqrt v).

(** The [while True] loop of [sample], entered with a finite [c_best]. *)
Fixpoint sample_informed (fuel : nat) (st : planner) (c : R)
    (path_region : option (list region)) (rs : nat -> R) (cur : nat)
    : outcome (Node * nat) :=
  match fuel with
  | O => Timeout
  | S fuel' =>
      let '((u, v), cur1) := sample_unit_ball rs cur in
      r2 <- pysqrt (c ^ 2 - c_min st ^ 2) ;;
      let a := c / 2 in
      let b := r2 / 2 in
      let '((c00, c01), (c10, c11)) := C st in
      let x_rand0 := (c00 * a) * u + (c01 * b) * v + fst (x_center st) in
      let x_rand1 := (c10 * a) * u + (c11 * b) * v + snd (x_center st) in
      let x_rand_node := new_Node x_rand0 x_rand1 0 in
      if is_within_map_instance st x_rand_node then
        ok <- region_admits x_rand_node path_region ;;
        if ok then Ok (x_rand_node, cur1)
        else sample_informed fuel' st c path_region rs cur1
      else sample_informed fuel' st c path_region rs cur1
  end.

(** [sample].  [c_best] only ever holds [float("inf")] or the cost of a
    node, so the first branch is entered with a finite value; a negative
    infinity, which no assignment produces, would have the loop reject
    samples with infinite coordinates for ever. *)
Definition sample (fuel : nat) (st : planner) (path_region : option (list region))
    (rs : nat -> R) (cur : nat) : outcome (Node * nat) :=
  if XFloat.ltb (c_best st) PInf then
    match c_best st with
    | Fin c => sample_informed fuel st c path_region rs cur
    | _ => Timeout
    end
  else get_random_node fuel st path_region rs cur.

(** [heuristic] *)
Definition heuristic (node goal_node : Node) : R :=
  hypot (x goal_node - x node) (y goal_node - y node).

(** [search_best_parent] *)
Definition search_best_parent (st : planner) (new_node : Node) (near_nodes : list ref)
    : option ref :=
  fst (fold_left
         (fun (acc : option ref * xfloat) (near : ref) =>
            let near_node := deref (mem st) near in
            if is_collision_free st near_node new_node then
              let heuristic_cost :=
                cost near_node
                + hypot (x new_node - x near_node) (y new_node - y near_node)
                + 15 / 10 * heuristic new_node (deref (mem st) (goal st)) in
              if XFloat.ltb (Fin heuristic_cost) (snd acc)
              then (Some near, Fin heuristic_cost)
              else acc
            else acc)
         near_nodes (None, PInf)).

(** [adaptive_radius = self.search_radius * (self.c_best / self.c_min)] *)
Definition adaptive_radius (st : planner) : xfloat :=
  XFloat.mul (search_radius st) (XFloat.np_div (c_best st) (c_min st)).

(** The list comprehension that collects [near_nodes]. *)
Definition near_nodes (st : planner) (new_node : Node) : list ref :=
  filter (fun r =>
            let node := deref (mem st) r in
            XFloat.leb (Fin (hypot (x node - x new_node) (y node - y new_node)))
                       (adaptive_radius st))
         (nodes st).

Definition set_parent (n : Node) (p : option ref) : Node :=
  mkNode (x n) (y n) (cost n) p.

(** The goal-connection test that ends an iteration of [search_route];
    [new_ref] names [new_node].  The boolean tells whether the loop
    breaks. *)
Definition connect_goal (st : planner) (new_ref : ref) : planner * bool :=
  let new_node := deref (mem st) new_ref in
  let goal_node := deref (mem st) (goal st) in
  if Rleb (hypot (x new_node - x goal_node) (y new_node - y goal_node)) (search_radius st)
  then
    let '(h1, final_ref) := alloc (mem st) (steer st new_ref (goal st) None) in
    let st1 := with_mem st h1 in
    if is_collision_free st1 (deref h1 new_ref) (deref h1 final_ref) then
      let st2 := with_goal st1 final_ref in
      let st3 := with_mem st2 (store h1 final_ref
                                     (set_parent (deref h1 final_ref) (Some new_ref))) in
      let st4 := with_nodes st3 (nodes st3 ++ [goal st3]) in
      let st5 := with_c_best st4 (Fin (cost (deref (mem st4) (goal st4)))) in
      (st5, true)
    else (st1, false)
  else (st, false).

(** One pass of the [for] loop of [search_route]. *)
Definition iteration (fuel : nat) (st : planner) (path_region : list region)
    (rs : nat -> R) (cur : nat) : outcome (planner * nat * bool) :=
  '(rand_node, cur1) <- sample fuel st (Some path_region) rs cur ;;
  let '(h1, rand_ref) := alloc (mem st) rand_node in
  let st1 := with_mem st h1 in
  nearest_ref <- getitem (nodes st1) (get_nearest_node_index st1 rand_node) ;;
  let '(h2, new_ref) :=
    alloc h1 (steer st1 nearest_ref rand_ref (Some (search_radius st1))) in
  let st2 := with_mem st1 h2 in
  if negb (is_collision_free st2 (deref h2 nearest_ref) (deref h2 new_ref)) then
    Ok (st2, cur1, false)
  else
    let near := near_nodes st2 (deref h2 new_ref) in
    let best_parent := search_best_parent st2 (deref h2 new_ref) near in
    let '(st3, new_ref') :=
      match best_parent with
      | Some bp =>
          let '(h3, r3) := alloc h2 (steer st2 bp new_ref None) in
          (with_mem st2 (store h3 r3 (set_parent (deref h3 r3) (Some bp))), r3)
      | None => (st2, new_ref)
      end in
    let st4 := with_nodes st3 (nodes st3 ++ [new_ref']) in
    let st5 := with_mem st4 (rewire st4 new_ref' near) in
    let '(st6, broke) := connect_goal st5 new_ref' in
    Ok (st6, cur1, broke).

(** The [for _ in range(self.max_iter)] loop. *)
Fixpoint grow (fuel : nat) (count : nat) (st : planner) (path_region : list region)
    (rs : nat -> R) (cur : nat) : outcome (planner * nat) :=
  match count with
  | O => Ok (st, cur)
  | S count' =>
      '(st', cur', broke) <- iteration fuel st path_region rs cur ;;
      if (broke : bool) then Ok (st', cur')
      else grow fuel count' st' path_region rs cur'
  end.

(** The planner states in which a pass of the [for] loop begins, when the
    loop is entered in state [st0] with the random source at its start:
    [st0] itself, and every state left by a pass that did not break. *)
Inductive iteration_start (fuel : nat) (path_region : list region) (rs : nat -> R)
    (st0 : planner) : planner -> nat -> Prop :=
| start_first : iteration_start fuel path_region rs st0 st0 0
| start_next (st : planner) (cur : nat) (st' : planner) (cur' : nat) :
    iteration_start fuel path_region rs st0 st cur ->
    iteration fuel st path_region rs cur = Ok (st', cur', false) ->
    iteration_start fuel path_region rs st0 st' cur'.

(** The [for j in range(len(path_x) - 1, i, -1)] loop of [smooth_path]:
    [Some j] when it breaks at [j], [None] when it runs to its end.
    [js] lists the values [j] takes. *)
Fixpoint smooth_scan (st : planner) (path_x path_y : list R) (i : nat) (js : list nat)
    : outcome (option nat) :=
  match js with
  | [] => Ok None
  | j :: js' =>
      xi <- getitem path_x i ;;
      yi <- getitem path_y i ;;
      xj <- getitem path_x j ;;
      yj <- getitem path_y j ;;
      if is_collision_free st (new_Node xi yi 0) (new_Node xj yj 0)
      then Ok (Some j)
      else smooth_scan st path_x path_y i js'
  end.

(** [range(hi, lo, -1)]: [hi, hi - 1, ..., lo + 1]. *)
Definition range_down (hi lo : nat) : list nat :=
  rev (seq (S lo) (hi - lo)).

(** The [while i < len(path_x) - 1] loop of [smooth_path]. *)
Fixpoint smooth_loop (fuel : nat) (st : planner) (path_x path_y : list R)
    (i : nat) (smooth_x smooth_y : list R) : outcome (list R * list R) :=
  match fuel with
  | O => Timeout
  | S fuel' =>
      if (i <? length path_x - 1)%nat then
        found <- smooth_scan st path_x path_y i (range_down (length path_x - 1) i) ;;
        match found with
        | Some j =>
            xj <- getitem path_x j ;;
            yj <- getitem path_y j ;;
            smooth_loop fuel' st path_x path_y j (smooth_x ++ [xj]) (smooth_y ++ [yj])
        | None => smooth_loop fuel' st path_x path_y i smooth_x smooth_y
        end
      else Ok (smooth_x, smooth_y)
  end.

(** [smooth_path] *)
Definition smooth_path (fuel : nat) (st : planner) (path_x path_y : list R)
    : outcome (list R * list R) :=
  x0 <- getitem path_x 0 ;;
  y0 <- getitem path_y 0 ;;
  smooth_loop fuel st path_x path_y 0 [x0] [y0].

Definition routes : Type := (list R * list R * list R * list R)%type.

(** [return [], [], [], []] *)
Definition no_routes : routes := ([], [], [], []).

(** [search_route] *)
Definition search_route (fuel : nat) (st : planner) (rs : nat -> R) : outcome routes :=
  let '(rx, ry) := find_path (deref (mem st) (start st)) (deref (mem st) (goal st))
                             (map_instance st) in
  if is_empty rx || is_empty ry then Ok no_routes
  else
    path_region <- narrow_sample st rx ry ;;
    '(st', _) <- grow fuel (Z.to_nat (max_iter st)) st path_region rs 0 ;;
    match parent (deref (mem st') (goal st')) with
    | None => Ok no_routes
    | Some _ =>
        let '(rx_opt, ry_opt) := generate_final_course st' in
        '(sx, sy) <- smooth_path fuel st' rx_opt ry_opt ;;
        Ok (rx, ry, sx, sy)
    end.

End Planner.

End InformedTRRTStar.

(** ** The numpy operations the controllers use *)

Module Numpy.
Import PyNum.

(** [np.linspace(start, stop, num)] *)
Definition linspace (start stop : R) (num : nat) : list R :=
  map (fun i => start + INR i * ((stop - start) / INR (num - 1))) (seq 0 num).

Fixpoint zip_with {A B D : Type} (f : A -> B -> D) (l : list A) (l' : list B) : list D :=
  match l, l' with
  | a :: t, b :: t' => f a b :: zip_with f t t'
  | _, _ => []
  end.

(** [a - b] on one-dimensional arrays: equal lengths, or one of them of
    length one, which is then broadcast; any other pair of shapes raises. *)
Definition sub (a b : list R) : outcome (list R) :=
  if (length a =? length b)%nat then Ok (zip_with Rminus a b)
  else
    match a, b with
    | [u], _ => Ok (map (fun v => u - v) b)
    | _, [v] => Ok (map (fun u => u - v) a)
    | _, _ => Raise ValueError
    end.

(** [np.sum(a ** 2)] *)
Definition sum_sq (a : list R) : R := fold_left (fun acc v => acc + v ^ 2) a 0.

(** [np.linalg.norm] of a one-dimensional array. *)
Definition norm (a : list R) : R := sqrt (sum_sq a).

Fixpoint argmin_from (best_i : nat) (best : R) (i : nat) (l : list R) : nat :=
  match l with
  | [] => best_i
  | d :: t =>
      if Rlt_dec d best then argmin_from i d (S i) t
      else argmin_from best_i best (S i) t
  end.

(** [np.argmin]: the first position of the smallest entry; an empty array
    raises. *)
Definition argmin (l : list R) : outcome nat :=
  match l with
  | [] => Raise ValueError
  | d :: t => Ok (argmin_from 0 d 1 t)
  end.

(** [np.arange(lo, hi)] on integers. *)
Definition arange (lo hi : Z) : list Z := ParkingLot.zrange lo hi.

End Numpy.

(** Monadic left fold: a [for] loop whose body may raise. *)
Fixpoint foldM {A B : Type} (f : B -> A -> outcome B) (l : list A) (b : B) : outcome B :=
  match l with
  | [] => Ok b
  | a :: t => b' <- f b a ;; foldM f t b'
  end.

(** ** control/mpc_basic.py *)

Module MPCBasic.
Import PyNum.

(** The state array [x, y, theta, v]. *)
Definition state : Type := (R * R * R * R)%type.
Definition control : Type := (R * R)%type.

Definition to_array (s : state) : list R :=
  let '(sx, sy, stheta, sv) := s in [sx; sy; stheta; sv].

Record MPCController : Type := mk {
  horizon : Z;
  dt : R;
  map_instance : ParkingLot.t;
  wheelbase : R
}.

(** [predict] *)
Definition predict (self : MPCController) (s : state) (control_input : control) : state :=
  let '(sx, sy, stheta, sv) := s in
  let '(v_ref, delta_ref) := control_input in
  (sx + sv * cos stheta * dt self,
   sy + sv * sin stheta * dt self,
   stheta + sv / wheelbase self * tan delta_ref * dt self,
   sv + v_ref * dt self).

(** The loop of [compute_cost], with [cost] the sum so far. *)
Fixpoint compute_cost_from (cost : R) (predicted_states : list state)
    (ref_trajectory : list (list R)) : outcome R :=
  match predicted_states, ref_trajectory with
  | s :: ps, ref_state :: rs =>
      d <- Numpy.sub (to_array s) ref_state ;;
      compute_cost_from (cost + Numpy.sum_sq d) ps rs
  | _, _ => Ok cost
  end.

(** [compute_cost] *)
Definition compute_cost (predicted_states : list state) (ref_trajectory : list (list R))
    : outcome R :=
  compute_cost_from 0 predicted_states ref_trajectory.

(** [is_collision_free] *)
Definition is_collision_free (self : MPCController) (s : state) : bool :=
  let '(sx, sy, _, _) := s in
  ParkingLot.is_not_crossed_obstacle (map_instance self)
    (round sx, round sy) (round sx, round sy).

(** [apply_control] *)
Definition apply_control (self : MPCController) (current_state : state)
    (control_input : control) : state :=
  predict self current_state control_input.

(** The [for _ in range(self.horizon)] rollout. *)
Fixpoint rollout (self : MPCController) (steps : nat) (s : state) (c : control)
    : list state :=
  match steps with
  | O => []
  | S steps' =>
      let s' := predict self s c in
      s' :: rollout self steps' s' c
  end.

(** The 7 x 7 grid, in the order the two nested loops visit it. *)
Definition control_grid : list control :=
  flat_map (fun v_ref => map (fun delta_ref => (v_ref, delta_ref))
                             (Numpy.linspace (- PI / 6) (PI / 6) 7))
           (Numpy.linspace (-1) 1 7).

(** The predicted states of one grid cell, cut to the reference length. *)
Definition predicted_states (self : MPCController) (current_state : state)
    (ref_trajectory : list (list R)) (c : control) : list state :=
  let predicted := rollout self (Z.to_nat (horizon self)) current_state c in
  if (length ref_trajectory <? length predicted)%nat
  then firstn (length ref_trajectory) predicted
  else predicted.

(** The body of the nested loops of [optimize_control]; the accumulator
    holds [best_control] and [min_cost]. *)
Definition consider (self : MPCController) (current_state : state)
    (ref_trajectory : list (list R)) (acc : option control * xfloat) (c : control)
    : outcome (option control * xfloat) :=
  let predicted := predicted_states self current_state ref_trajectory c in
  if forallb (is_collision_free self) predicted then
    cost <- compute_cost predicted ref_trajectory ;;
    if XFloat.ltb (Fin cost) (snd acc) then Ok (Some c, Fin cost) else Ok acc
  else Ok acc.

(** [optimize_control]; [None] stands for Python's [None]. *)
Definition optimize_control (self : MPCController) (current_state : state)
    (ref_trajectory : list (list R)) : outcome (option control) :=
  '(best_control, _) <-
    foldM (consider self current_state ref_trajectory) control_grid (None, PInf) ;;
  let best_control :=
    match best_control with
    | None => Some (1 / 10, 0)
    | Some c => Some c
    end in
  Ok best_control.

End MPCBasic.

(** ** controller/mpc_controller.py *)

Module MPCController.
Import PyNum.

Definition state : Type := (R * R * R * R)%type.
Definition control : Type := (R * R)%type.

Definition to_array (s : state) : list R :=
  let '(sx, sy, stheta, sv) := s in [sx; sy; stheta; sv].

Record MPCController : Type := mk {
  horizon : Z;
  dt : R;
  wheelbase : R;
  map_instance : ParkingLot.t
}.

(** The methods inherited from [BaseController], whose source is not
    available, as parameters; each is taken to return normally. *)
Class BaseController : Type := {
  apply_control : MPCController -> state -> control -> state;
  is_collision_free : MPCController -> state -> state -> bool;
  is_goal_reached : MPCController -> state -> R * R -> bool
}.

(** The functions imported from [utils], likewise parameters. *)
Class Utils : Type := {
  calculate_angle : R -> R -> R -> R -> R;
  calculate_trajectory_distance : list state -> R
}.

Section Controller.
Context {base : BaseController} {utils : Utils}.

(** The loop of [compute_cost], with [cost] the sum so far. *)
Fixpoint compute_cost_from (cost : R) (predicted_states : list state)
    (ref_trajectory : list (list R)) : outcome R :=
  match predicted_states, ref_trajectory with
  | s :: ps, ref_state :: rs =>
      d <- Numpy.sub (to_array s) ref_state ;;
      compute_cost_from (cost + Numpy.sum_sq d) ps rs
  | _, _ => Ok cost
  end.

(** [compute_cost] *)
Definition compute_cost (predicted_states : list state)
    (ref_trajectory : list (list R)) : outcome R :=
  compute_cost_from 0 predicted_states ref_trajectory.

(** The [for _ in range(self.horizon)] rollout. *)
Fixpoint rollout (self : MPCController) (steps : nat) (s : state) (c : control)
    : list state :=
  match steps with
  | O => []
  | S steps' =>
      let s' := apply_control self s c in
      s' :: rollout self steps' s' c
  end.

(** The 7 x 7 grid, in the order the two nested loops visit it. *)
Definition control_grid : list control :=
  flat_map (fun a_ref => map (fun delta_ref => (a_ref, delta_ref))
                             (Numpy.linspace (- PI / 6) (PI / 6) 7))
           (Numpy.linspace (-1) 1 7).

(** The predicted states of one grid cell, cut to the reference length. *)
Definition predicted_states (self : MPCController) (current_state : state)
    (ref_trajectory : list (list R)) (c : control) : list state :=
  let predicted := rollout self (Z.to_nat (horizon self)) current_state c in
  if (length ref_trajectory <? length predicted)%nat
  then firstn (length ref_trajectory) predicted
  else predicted.

(** The variable [state] after the rollout loop: the last state appended,
    or [current_state] when the loop did not run. *)
Definition rollout_end (self : MPCController) (current_state : state) (c : control)
    : state :=
  last (rollout self (Z.to_nat (horizon self)) current_state c) current_state.

(** The body of the nested loops of [optimize_control]; the accumulator
    holds [best_control], [best_predicted_states] and [min_cost].  The
    plotting of each rollout is left out. *)
Definition consider (self : MPCController) (current_state : state)
    (ref_trajectory : list (list R))
    (acc : option control * option (list state) * xfloat) (c : control)
    : outcome (option control * option (list state) * xfloat) :=
  let predicted := predicted_states self current_state ref_trajectory c in
  if forallb (is_collision_free self (rollout_end self current_state c)) predicted then
    cost <- compute_cost predicted ref_trajectory ;;
    if XFloat.ltb (Fin cost) (snd acc)
    then Ok (Some c, Some predicted, Fin cost)
    else Ok acc
  else Ok acc.

(** [optimize_control]; [None] stands for Python's [None]. *)
Definition optimize_control (self : MPCController) (current_state : state)
    (ref_trajectory : list (list R))
    : outcome (option control * option (list state)) :=
  '(best_control, best_predicted_states, _) <-
    foldM (consider self current_state ref_trajectory) control_grid
          (None, None, PInf) ;;
  match best_control with
  | None =>
      let best_control := (5 / 10, 0) in
      Ok (Some best_control,
          Some (rollout self (Z.to_nat (horizon self)) current_state best_control))
  | Some c => Ok (Some c, best_predicted_states)
  end.

Definition window_size : Z := 10.

(** The re-anchoring of [ref_index] at the head of the loop body of
    [follow_trajectory]: the nearest reference point among the rows
    [search_start .. search_end]. *)
Definition reanchor (ref_trajectory : list (list R)) (current_state : state)
    (ref_index : Z) : outcome Z :=
  let max_ref_index := (Z.of_nat (length ref_trajectory) - 1)%Z in
  let search_start := Z.max (ref_index - window_size) 0 in
  let search_end := Z.min (ref_index + window_size) max_ref_index in
  let search_indices := Numpy.arange search_start (search_end + 1) in
  ref_points <-
    foldM (fun acc i => row <- getitem ref_trajectory (Z.to_nat i) ;;
                        Ok (acc ++ [firstn 2 row]))
          search_indices [] ;;
  let '(sx, sy, _, _) := current_state in
  distances <-
    foldM (fun acc p => d <- Numpy.sub p [sx; sy] ;; Ok (acc ++ [Numpy.norm d]))
          ref_points [] ;;
  min_distance_index <- Numpy.argmin distances ;;
  getitem search_indices min_distance_index.

(** Python's normalisation of a slice bound for a sequence of length
    [len]. *)
Definition slice_bound (len i : Z) : Z :=
  if (i <? 0)%Z then Z.max (i + len) 0 else Z.min i len.

(** [l[i:j]] *)
Definition slice {A : Type} (l : list A) (i j : Z) : list A :=
  let len := Z.of_nat (length l) in
  let lo := slice_bound len i in
  let hi := slice_bound len j in
  firstn (Z.to_nat (hi - lo)) (skipn (Z.to_nat lo) l).

(** The reference segment handed to the optimizer, padded with its last
    row up to [horizon] rows. *)
Definition ref_segment_at (self : MPCController) (ref_trajectory : list (list R))
    (ref_index : Z) : outcome (list (list R)) :=
  let max_ref_index := (Z.of_nat (length ref_trajectory) - 1)%Z in
  let ref_segment_end := Z.min (ref_index + horizon self) (max_ref_index + 1) in
  let ref_segment := slice ref_trajectory ref_index ref_segment_end in
  if (Z.of_nat (length ref_segment) <? horizon self)%Z then
    match rev ref_segment with
    | [] => Raise IndexError
    | last_point :: _ =>
        let num_padding := (horizon self - Z.of_nat (length ref_segment))%Z in
        Ok (ref_segment ++ repeat last_point (Z.to_nat num_padding))
    end
  else Ok ref_segment.

(** The local variables of [follow_trajectory] that its loop updates. *)
Record loop_state : Type := mkLoop {
  current_state : state;
  trajectory : list state;
  steering_angles : list R;
  accelations : list R;
  ref_index : Z
}.

(** The [while True] loop of [follow_trajectory]. *)
Fixpoint follow_loop (fuel : nat) (self : MPCController)
    (ref_trajectory : list (list R)) (goal_position : R * R) (ls : loop_state)
    : outcome loop_state :=
  match fuel with
  | O => Timeout
  | S fuel' =>
      if is_goal_reached self (current_state ls) goal_position then Ok ls
      else
        ref_index' <- reanchor ref_trajectory (current_state ls) (ref_index ls) ;;
        ref_segment <- ref_segment_at self ref_trajectory ref_index' ;;
        '(control_input, _) <- optimize_control self (current_state ls) ref_segment ;;
        match control_input with
        | None => Raise TypeError
        | Some c =>
            let next_state := apply_control self (current_state ls) c in
            follow_loop fuel' self ref_trajectory goal_position
              (mkLoop next_state
                      (trajectory ls ++ [next_state])
                      (steering_angles ls ++ [snd c])
                      (accelations ls ++ [fst c])
                      ref_index')
        end
  end.

(** The final adjustment: the state array is overwritten in place and
    appended.  After at least one pass of the loop the state array is
    also the last entry of [trajectory], which then changes with it. *)
Definition final_adjustment (goal_position : R * R) (ls : loop_state) : list state :=
  let '(_, _, _, sv) := current_state ls in
  let '(gx, gy) := goal_position in
  let snapped := (gx, gy, calculate_angle gx gy gx gy, sv) in
  match trajectory ls with
  | _ :: _ :: _ => removelast (trajectory ls) ++ [snapped; snapped]
  | _ => trajectory ls ++ [snapped]
  end.

(** The local variables as the loop of [follow_trajectory] finds them;
    [r10], [r11] are [ref_trajectory[1, 0]] and [ref_trajectory[1, 1]]. *)
Definition initial_loop_state (start_pose : Geometry.Pose) (r10 r11 : R) : loop_state :=
  let start_theta :=
    calculate_angle (Geometry.x start_pose) (Geometry.y start_pose) r10 r11 in
  let s0 := (Geometry.x start_pose, Geometry.y start_pose, start_theta, 0) in
  mkLoop s0 [s0] [] [] 0.

Definition followed : Type :=
  (bool * R * list state * list R * list R)%type.

(** [follow_trajectory] (the plotting under [show_process] is left
    out). *)
Definition follow_trajectory (fuel : nat) (self : MPCController)
    (start_pose : Geometry.Pose) (ref_trajectory : list (list R))
    (goal_position : R * R) : outcome followed :=
  row1 <- getitem ref_trajectory 1 ;;
  r10 <- getitem row1 0 ;;
  r11 <- getitem row1 1 ;;
  let is_reached := true in
  ls <- follow_loop fuel self ref_trajectory goal_position
                    (initial_loop_state start_pose r10 r11) ;;
  let trajectory :=
    if negb (is_goal_reached self (current_state ls) goal_position)
    then final_adjustment goal_position ls
    else trajectory ls in
  let total_distance := calculate_trajectory_distance trajectory in
  Ok (is_reached, total_distance, trajectory, steering_angles ls, accelations ls).

End Controller.

End MPCController.

(** ** control/mpc_basic.py: [follow_trajectory] *)

Module MPCBasicRun.
Import PyNum MPCBasic.

Section Follow.
Context {utils : MPCController.Utils}.

(** The [for i in range(len(ref_trajectory) - self.horizon)] loop of
    [follow_trajectory]; [indices] are the values of [i] still to come.
    The plotting of each state is left out. *)
Fixpoint follow_loop (self : MPCController) (ref_trajectory : list (list R))
    (indices : list nat) (current_state : state) (trajectory : list state)
    : outcome (list state) :=
  match indices with
  | [] => Ok trajectory
  | i :: rest =>
      let ref_segment :=
        MPCController.slice ref_trajectory (Z.of_nat i) (Z.of_nat i + horizon self) in
      control_input <- optimize_control self current_state ref_segment ;;
      match control_input with
      | None => Raise TypeError
      | Some c =>
          let current_state := apply_control self current_state c in
          let trajectory := trajectory ++ [current_state] in
          last_row <- getitem ref_trajectory (length ref_trajectory - 1) ;;
          let '(sx, sy, _, _) := current_state in
          d <- Numpy.sub [sx; sy] (firstn 2 last_row) ;;
          if Rltb (Numpy.norm d) 2 then Ok trajectory
          else follow_loop self ref_trajectory rest current_state trajectory
      end
  end.

(** The state array the loop starts from. *)
Definition initial_state (start_pose : Geometry.Pose) (r10 r11 : R) : state :=
  (Geometry.x start_pose, Geometry.y start_pose,
   MPCController.calculate_angle (Geometry.x start_pose) (Geometry.y start_pose) r10 r11,
   0).

(** [follow_trajectory] *)
Definition follow_trajectory (self : MPCController) (start_pose : Geometry.Pose)
    (ref_trajectory : list (list R)) : outcome (list state) :=
  row1 <- getitem ref_trajectory 1 ;;
  r10 <- getitem row1 0 ;;
  r11 <- getitem row1 1 ;;
  let current_state := initial_state start_pose r10 r11 in
  follow_loop self ref_trajectory
              (seq 0 (Z.to_nat (Z.of_nat (length ref_trajectory) - horizon self)))
              current_state [current_state].

End Follow.

End MPCBasicRun.

(** ** The passes of the grid search *)

Module GridSearchRun.
Import HybridAStar.

(** The node that [min(open_set, key=...)] selects, [None] when the open set
    is empty and the loop of [search_route] ends. *)
Definition pop (self : HybridAStarRoutePlanner) (open_set : dict) : option (Z * Node) :=
  match open_set with
  | [] => None
  | first :: others =>
      Some (dict_min_from (fun o => cost o + calculate_heuristic_cost self o) first others)
  end.

(** The open and the closed set at the end of a pass that popped
    [(index, current)] away from the goal. *)
Definition expand (self : HybridAStarRoutePlanner) (open_set closed_set : dict)
    (index : Z) (current : Node) : dict * dict :=
  let closed_set' := dict_set closed_set index current in
  (fold_left (relax (map_instance self) current closed_set')
             (next_nodes current index) (dict_del open_set index),
   closed_set').


End GridSearchRun.

(** ** The hops of the path smoother *)

Module SmoothedPath.
Import InformedTRRTStar.

Section Hops.
Context {base : InformedRRTStar}.

(** [hops st path_x path_y i js]: from index [i], the indices [js] are
    strictly increasing and end at the last index of the path; each hop goes
    to the furthest index that [is_collision_free] accepts from the index
    before it. *)
Inductive hops (st : planner) (path_x path_y : list R) : nat -> list nat -> Prop :=
| hops_end (i : nat) :
    ~ (i < length path_x - 1)%nat ->
    hops st path_x path_y i []
| hops_step (i j : nat) (js : list nat) (xi yi xj yj : R) :
    (i < j <= length path_x - 1)%nat ->
    nth_error path_x i = Some xi ->
    nth_error path_y i = Some yi ->
    nth_error path_x j = Some xj ->
    nth_error path_y j = Some yj ->
    is_collision_free st (new_Node xi yi 0) (new_Node xj yj 0) = true ->
    (forall j' xj' yj',
       (j < j' <= length path_x - 1)%nat ->
       nth_error path_x j' = Some xj' ->
       nth_error path_y j' = Some yj' ->
       is_collision_free st (new_Node xi yi 0) (new_Node xj' yj' 0) = false) ->
    hops st path_x path_y j js ->
    hops st path_x path_y i (j :: js).

End Hops.

End SmoothedPath.

(** ** Stand-ins for the missing collaborators

    Concrete instances of the parameters above, used to run the statements
    of Part II on concrete inputs. *)

Module Fixtures.
Import PyNum InformedTRRTStar.

(** Modelled from the spec: [is_collision_free] of the missing base class;
    a segment is rejected when the straight segment between the two nodes
    crosses an obstacle of the map, which the map answers on rounded
    cells. *)
Definition segment_free (st : planner) (a b : Node) : bool :=
  ParkingLot.is_not_crossed_obstacle (map_instance st)
    (round (x a), round (y a)) (round (x b), round (y b)).

Definition lot_base : InformedRRTStar := {|
  rotation_to_world_frame := fun _ _ _ => ((1, 0), (0, 1));
  sample_unit_ball := fun rs cur => ((rs cur, rs (S cur)), S (S cur));
  is_within_map_instance := fun st n =>
    Rleb 0 (x n) && Rleb (x n) (IZR (ParkingLot.lot_width (map_instance st)))
    && Rleb 0 (y n) && Rleb (y n) (IZR (ParkingLot.lot_height (map_instance st)));
  get_nearest_node_index := fun _ _ => 0%nat;
  steer := fun st from to _ =>
    let a := deref (mem st) from in
    let b := deref (mem st) to in
    mkNode (x b) (y b) (cost a + hypot (x b - x a) (y b - y a)) (Some from);
  is_collision_free := segment_free;
  rewire := fun st _ _ => mem st;
  generate_final_course := fun st =>
    ([x (deref (mem st) (start st)); x (deref (mem st) (goal st))],
     [y (deref (mem st) (start st)); y (deref (mem st) (goal st))])
|}.

(** A seed planner that answers with the straight polyline start-goal. *)
Definition straight_seed : ThetaStar := {|
  find_path := fun s g _ => ([x s; x g], [y s; y g])
|}.

(** A seed planner that answers with the start point alone. *)
Definition point_seed : ThetaStar := {|
  find_path := fun s _ _ => ([x s], [y s])
|}.

(** A seed planner that finds nothing. *)
Definition no_seed : ThetaStar := {|
  find_path := fun _ _ _ => ([], [])
|}.

(** A planner built for the parking lot of [space/parking_lot.py]. *)
Definition lot_planner : planner :=
  @init lot_base (Geometry.mkPose 20 5 0) (Geometry.mkPose 20 30 0)
        ParkingLot.init 300 10.

(** Modelled from the spec: the methods of the missing [BaseController].
    [apply_control] is the kinematic bicycle update of the spec, section
    4.3; [is_collision_free] asks the map about the rounded cell of the
    predicted state; [is_goal_reached] is a proximity test, here within
    2 units as in the sibling controller. *)
Definition lot_controller_base : MPCController.BaseController := {|
  MPCController.apply_control := fun self s c =>
    let '(sx, sy, stheta, sv) := s in
    let '(a_ref, delta_ref) := c in
    (sx + sv * cos stheta * MPCController.dt self,
     sy + sv * sin stheta * MPCController.dt self,
     stheta + sv / MPCController.wheelbase self * tan delta_ref * MPCController.dt self,
     sv + a_ref * MPCController.dt self);
  MPCController.is_collision_free := fun self _ s =>
    let '(sx, sy, _, _) := s in
    ParkingLot.is_not_crossed_obstacle (MPCController.map_instance self)
      (round sx, round sy) (round sx, round sy);
  MPCController.is_goal_reached := fun _ s g =>
    let '(sx, sy, _, _) := s in
    Rltb (hypot (sx - fst g) (sy - snd g)) 2
|}.

(** Modelled from the spec: the missing [utils]; the heading between two
    waypoints and the accumulated distance along a trajectory. *)
Definition lot_utils : MPCController.Utils := {|
  MPCController.calculate_angle := fun x1 y1 x2 y2 => atan2 (y2 - y1) (x2 - x1);
  MPCController.calculate_trajectory_distance := fun traj =>
    fold_left Rplus
      (Numpy.zip_with (fun (a b : MPCController.state) =>
                         let '(ax, ay, _, _) := a in
                         let '(bx, by_, _, _) := b in
                         hypot (bx - ax) (by_ - ay))
                      traj (tl traj))
      0
|}.

Fixpoint with_headings (points : list (R * R)) (previous : R) : list Geometry.Pose :=
  match points with
  | [] => []
  | (a, b) :: rest =>
      match rest with
      | [] => [Geometry.mkPose a b previous]
      | (c, d) :: _ =>
          let heading := atan2 (d - b) (c - a) in
          Geometry.mkPose a b heading :: with_headings rest heading
      end
  end.

(** Modelled from the spec: the missing [utils] of the grid search; the
    headings of a route are taken from successive point deltas, and the
    length of a trajectory is the sum of its segment lengths. *)
Definition route_utils : HybridAStar.Utils := {|
  HybridAStar.transform_trajectory := fun rx ry => with_headings (combine rx ry) 0;
  HybridAStar.calculate_trajectory_distance := fun traj =>
    fold_left Rplus
      (Numpy.zip_with (fun a b => hypot (Geometry.x b - Geometry.x a)
                                        (Geometry.y b - Geometry.y a))
                      traj (tl traj))
      0
|}.

(** The default scenario of the grid search: from (2, 2) to (45, 45), here
    on the parking lot. *)
Definition lot_search : HybridAStar.HybridAStarRoutePlanner :=
  HybridAStar.init (Geometry.mkPose 2 2 0) (Geometry.mkPose 45 45 0) ParkingLot.init.

(** The controllers of the two [main] functions: horizon 10, time step
    0.1, wheelbase 2.5, on the parking lot. *)
Definition basic_controller : MPCBasic.MPCController :=
  MPCBasic.mk 10 (1 / 10) ParkingLot.init (25 / 10).

Definition lot_controller : MPCController.MPCController :=
  MPCController.mk 10 (1 / 10) (25 / 10) ParkingLot.init.

(** The same planner with one more tree node, at (70, 5); [c_best] is
    still the initial [float("inf")]. *)
Definition far_planner : planner :=
  with_nodes (with_mem lot_planner (mem lot_planner ++ [new_Node 70 5 0]))
             [0%nat; 2%nat].

End Fixtures.

(* ================================================================== *)
(** * Part II: properties *)
(* ================================================================== *)

(** Case analysis on the next comparison of reals met in the goal. *)
Ltac case_Rdec :=
  match goal with
  | |- context [Rlt_dec ?a ?b] => destruct (Rlt_dec a b)
  | |- context [Rle_dec ?a ?b] => destruct (Rle_dec a b)
  | |- context [Req_dec_T ?a ?b] => destruct (Req_dec_T a b)
  end.

Section AngleNormalisation.
Import PyNum HybridAStar.

Lemma atan2_range (b a : R) : - PI < atan2 b a <= PI.
Proof.
  unfold atan2.
  pose proof PI_RGT_0 as Hpi.
  pose proof (atan_bound (b / a)) as [Hlo Hhi].
  destruct (Rlt_dec 0 a) as [Ha | Ha]; [lra |].
  destruct (Rlt_dec a 0) as [Ha' | Ha'].
  - destruct (Rle_dec 0 b) as [Hb | Hb].
    + assert (b / a <= 0) as Hq.
      { unfold Rdiv. assert (/ a < 0) by (apply Rinv_lt_0_compat; lra). nra. }
      assert (atan (b / a) <= 0) as Hat.
      { destruct Hq as [Hq | Hq].
        - left. rewrite <- atan_0. now apply atan_increasing.
        - rewrite Hq, atan_0. lra. }
      lra.
    + assert (0 < b / a) as Hq.
      { unfold Rdiv. assert (/ a < 0) by (apply Rinv_lt_0_compat; lra). nra. }
      assert (0 < atan (b / a)) as Hat.
      { rewrite <- atan_0. now apply atan_increasing. }
      lra.
  - destruct (Rlt_dec 0 b); [lra |].
    destruct (Rlt_dec b 0); lra.
Qed.




End AngleNormalisation.

Section MotionPrimitive.
Import PyNum HybridAStar.

(** C1: expanding a node with chord length [L] and steering angle [s]
    gives a successor with heading
    [normalize (theta + L / wheelbase * tan s)], position advanced by
    [L] along the new heading, and cost increased by [L]. *)
Theorem calculate_next_node_kinematic_arc
    (current : Node) (current_node_index : Z) (L s : R) :
  let next := calculate_next_node current current_node_index L s in
  theta (pose next)
    = change_radians_range (theta (pose current) + L / wheelbase * tan s) /\
  x (pose next) = x (pose current) + L * cos (theta (pose next)) /\
  y (pose next) = y (pose current) + L * sin (theta (pose next)) /\
  cost next = cost current + L.
Proof.
  cbn. repeat split.
  f_equal. unfold wheelbase. field.
Qed.

End MotionPrimitive.

Section NumberFacts.
Import PyNum.

Lemma round_IZR (z : Z) : round (IZR z) = z.
Proof.
  unfold round. rewrite ZfloorZ.
  replace (IZR z - IZR z) with 0 by ring.
  destruct (Rlt_dec 0 (1 / 2)) as [_ | H]; [reflexivity | lra].
Qed.

Lemma hypot_0_0 : hypot 0 0 = 0.
Proof.
  unfold hypot. replace (0 * 0 + 0 * 0) with 0 by ring. apply sqrt_0.
Qed.

Lemma hypot_nonneg (a b : R) : 0 <= hypot a b.
Proof. apply sqrt_pos. Qed.

Lemma hypot_eq_0 (a b : R) : hypot a b = 0 -> a = 0 /\ b = 0.
Proof.
  unfold hypot. intros H. apply sqrt_eq_0 in H; [| nra]. split; nra.
Qed.

Lemma Rleb_true (a b : R) : Rleb a b = true <-> a <= b.
Proof. unfold Rleb. destruct (Rle_dec a b); split; intros; try easy. Qed.

Lemma Rltb_true (a b : R) : Rltb a b = true <-> a < b.
Proof. unfold Rltb. destruct (Rlt_dec a b); split; intros; try easy. Qed.

Lemma Reqb_true (a b : R) : Reqb a b = true <-> a = b.
Proof. unfold Reqb. destruct (Req_dec_T a b); split; intros; try easy. Qed.

End NumberFacts.

Section CorridorTest.
Import PyNum InformedTRRTStar.

(** C6: a corridor segment whose two endpoints coincide makes
    [is_within_region] divide by a zero segment length: the call raises
    [ZeroDivisionError] instead of treating the segment as not matching. *)
Theorem is_within_region_zero_length_segment_raises
    (node : Node) (x1 y1 margin : R) (rest : list region) :
  is_within_region node ((x1, y1, x1, y1, margin) :: rest) = Raise ZeroDivisionError.
Proof.
  cbn [is_within_region].
  replace (y1 - y1) with 0 by ring. replace (x1 - x1) with 0 by ring.
  rewrite hypot_0_0. unfold pydiv.
  destruct (Req_dec_T 0 0) as [_ | H]; [reflexivity | contradiction].
Qed.

(** A segment of positive length never raises: the guard is only missing
    for the degenerate one. *)
Lemma is_within_region_head_ok
    (node : Node) (x1 y1 x2 y2 margin : R) (rest : list region) :
  (x1 <> x2 \/ y1 <> y2) ->
  let d := Rabs ((y2 - y1) * x node - (x2 - x1) * y node + x2 * y1 - y2 * x1)
           / hypot (y2 - y1) (x2 - x1) in
  is_within_region node ((x1, y1, x2, y2, margin) :: rest)
  = if Rleb d margin then Ok true else is_within_region node rest.
Proof.
  intros Hne d. cbn [is_within_region]. unfold pydiv.
  destruct (Req_dec_T (hypot (y2 - y1) (x2 - x1)) 0) as [H0 | H0].
  - apply hypot_eq_0 in H0. destruct H0, Hne; lra.
  - reflexivity.
Qed.

End CorridorTest.

Section PathSmoothing.
Import PyNum InformedTRRTStar.
Context {base : InformedRRTStar}.

Lemma smooth_scan_all_blocked (st : planner) (path_x path_y : list R) (i : nat)
    (xi yi : R) (js : list nat) :
  nth_error path_x i = Some xi ->
  nth_error path_y i = Some yi ->
  (forall j, In j js ->
     exists xj yj, nth_error path_x j = Some xj /\ nth_error path_y j = Some yj /\
                   is_collision_free st (new_Node xi yi 0) (new_Node xj yj 0) = false) ->
  smooth_scan st path_x path_y i js = Ok None.
Proof.
  intros Hxi Hyi. induction js as [| j js IH]; intros Hall; [reflexivity |].
  destruct (Hall j (or_introl eq_refl)) as (xj & yj & Hxj & Hyj & Hblocked).
  cbn [smooth_scan]. unfold getitem. rewrite Hxi, Hyi, Hxj, Hyj. cbn [bind].
  rewrite Hblocked. apply IH. intros k Hk. apply Hall. now right.
Qed.

(** Once the scan from index [i] finds nothing, the [while] loop repeats
    the same pass for ever. *)
Lemma smooth_loop_stuck (st : planner) (path_x path_y : list R) (i : nat) :
  (i < length path_x - 1)%nat ->
  smooth_scan st path_x path_y i (range_down (length path_x - 1) i) = Ok None ->
  forall fuel smooth_x smooth_y,
    smooth_loop fuel st path_x path_y i smooth_x smooth_y = Timeout.
Proof.
  intros Hi Hscan fuel. induction fuel as [| fuel IH]; intros sx sy; [reflexivity |].
  cbn [smooth_loop]. apply Nat.ltb_lt in Hi. rewrite Hi, Hscan. cbn [bind]. apply IH.
Qed.

Lemma In_range_down_iff (hi lo j : nat) : In j (range_down hi lo) <-> (lo < j <= hi)%nat.
Proof.
  unfold range_down. rewrite <- in_rev, in_seq. lia.
Qed.

(** C5: a path of at least two points whose first point sees no later
    point through a collision-free segment makes [smooth_path] repeat its
    scan for ever: no loop budget lets it return or raise. *)
Theorem smooth_path_blocked_start_never_returns
    (st : planner) (x0 y0 : R) (xs ys : list R) :
  xs <> [] ->
  length xs = length ys ->
  (forall xj yj, In (xj, yj) (combine xs ys) ->
     is_collision_free st (new_Node x0 y0 0) (new_Node xj yj 0) = false) ->
  forall fuel, smooth_path fuel st (x0 :: xs) (y0 :: ys) = Timeout.
Proof.
  intros Hne Hlen Hblocked fuel. unfold smooth_path. cbn [getitem nth_error bind].
  apply smooth_loop_stuck.
  - cbn [length]. destruct xs; [contradiction | cbn [length]; lia].
  - apply smooth_scan_all_blocked with (xi := x0) (yi := y0); try reflexivity.
    intros j Hj. apply In_range_down_iff in Hj. cbn [length] in Hj.
    destruct j as [| j]; [lia |]. cbn [nth_error].
    assert (j < length xs)%nat as Hjx by lia.
    assert (j < length ys)%nat as Hjy by lia.
    destruct (nth_error xs j) as [xj |] eqn:Ex;
      [| apply nth_error_None in Ex; lia].
    destruct (nth_error ys j) as [yj |] eqn:Ey;
      [| apply nth_error_None in Ey; lia].
    exists xj, yj. repeat split. apply Hblocked.
    clear - Ex Ey. revert ys j Ex Ey.
    induction xs as [| a xs IH]; intros ys j Ex Ey; destruct j, ys; try discriminate.
    + cbn in *. left. congruence.
    + cbn in *. right. eapply IH; eassumption.
Qed.

Lemma smooth_scan_finds (st : planner) (path_x path_y : list R) (i : nat) (js : list nat) :
  length path_x = length path_y ->
  (i < length path_x)%nat ->
  (forall j, In j js -> (j < length path_x)%nat) ->
  (exists j xi yi xj yj,
     In j js /\
     nth_error path_x i = Some xi /\ nth_error path_y i = Some yi /\
     nth_error path_x j = Some xj /\ nth_error path_y j = Some yj /\
     is_collision_free st (new_Node xi yi 0) (new_Node xj yj 0) = true) ->
  exists j, In j js /\ smooth_scan st path_x path_y i js = Ok (Some j).
Proof.
  intros Hlen Hi. induction js as [| j js IH]; intros Hvalid Hfree.
  - destruct Hfree as (j & _ & _ & _ & _ & [] & _).
  - cbn [smooth_scan]. unfold getitem.
    destruct (nth_error path_x i) as [xi |] eqn:Exi; [| apply nth_error_None in Exi; lia].
    destruct (nth_error path_y i) as [yi |] eqn:Eyi; [| apply nth_error_None in Eyi; lia].
    pose proof (Hvalid j (or_introl eq_refl)) as Hj.
    destruct (nth_error path_x j) as [xj |] eqn:Exj; [| apply nth_error_None in Exj; lia].
    destruct (nth_error path_y j) as [yj |] eqn:Eyj; [| apply nth_error_None in Eyj; lia].
    cbn [bind].
    destruct (is_collision_free st (new_Node xi yi 0) (new_Node xj yj 0)) eqn:Efree.
    + exists j. split; [now left | reflexivity].
    + destruct IH as (j' & Hj' & Hscan).
      * intros k Hk. apply Hvalid. now right.
      * destruct Hfree as (k & xi' & yi' & xk & yk & Hk & Hxi & Hyi & Hxk & Hyk & Hkfree).
        exists k, xi', yi', xk, yk. repeat split; try assumption.
        destruct Hk as [<- | Hk]; [| exact Hk].
        rewrite Exj in Hxk. rewrite Eyj in Hyk. congruence.
      * exists j'. split; [now right | exact Hscan].
Qed.

(** X20: where termination does hold: when each point sees the next one
    through a collision-free segment (as the edges of a tree path do), every
    scan finds a later index and [smooth_path] returns, within as many
    passes as the path has points. *)
Lemma smooth_path_returns_on_connected_path (st : planner) (path_x path_y : list R) :
  path_x <> [] ->
  length path_x = length path_y ->
  (forall i xi yi xj yj,
     nth_error path_x i = Some xi -> nth_error path_y i = Some yi ->
     nth_error path_x (S i) = Some xj -> nth_error path_y (S i) = Some yj ->
     is_collision_free st (new_Node xi yi 0) (new_Node xj yj 0) = true) ->
  exists smooth_x smooth_y,
    smooth_path (length path_x) st path_x path_y = Ok (smooth_x, smooth_y).
Proof.
  intros Hne Hlen Hfree.
  assert (forall k i smooth_x smooth_y fuel,
            (length path_x - 1 - i <= k)%nat -> (i < length path_x)%nat ->
            (k < fuel)%nat ->
            exists sx sy, smooth_loop fuel st path_x path_y i smooth_x smooth_y = Ok (sx, sy))
    as Hloop.
  { induction k as [| k IH]; intros i sx sy fuel Hk Hi Hfuel;
      (destruct fuel as [| fuel]; [lia |]); cbn [smooth_loop].
    - destruct (Nat.ltb_spec i (length path_x - 1)); [lia |]. now exists sx, sy.
    - destruct (Nat.ltb_spec i (length path_x - 1)) as [Hlt | _]; [| now exists sx, sy].
      destruct (smooth_scan_finds st path_x path_y i (range_down (length path_x - 1) i))
        as (j & Hj & Hscan); try assumption.
      + intros j Hj. apply In_range_down_iff in Hj. lia.
      + destruct (nth_error path_x i) as [xi |] eqn:Exi;
          [| apply nth_error_None in Exi; lia].
        destruct (nth_error path_y i) as [yi |] eqn:Eyi;
          [| apply nth_error_None in Eyi; lia].
        destruct (nth_error path_x (S i)) as [xj |] eqn:Exj;
          [| apply nth_error_None in Exj; lia].
        destruct (nth_error path_y (S i)) as [yj |] eqn:Eyj;
          [| apply nth_error_None in Eyj; lia].
        exists (S i), xi, yi, xj, yj. repeat split; try assumption.
        * apply In_range_down_iff. lia.
        * eapply Hfree; eassumption.
      + rewrite Hscan. cbn [bind]. apply In_range_down_iff in Hj. unfold getitem.
        destruct (nth_error path_x j) as [xj |] eqn:Exj;
          [| apply nth_error_None in Exj; lia].
        destruct (nth_error path_y j) as [yj |] eqn:Eyj;
          [| apply nth_error_None in Eyj; lia].
        cbn [bind]. apply IH; lia. }
  unfold smooth_path, getitem.
  destruct path_x as [| x0 xs]; [contradiction |].
  destruct path_y as [| y0 ys]; [discriminate |].
  cbn [nth_error bind]. apply (Hloop (length xs)); cbn [length]; lia.
Qed.

End PathSmoothing.

Section PathSmoothingOnTheLot.
Import PyNum InformedTRRTStar Fixtures.

Lemma lot_segment_20_5_to_20_30_blocked :
  segment_free lot_planner (new_Node 20 5 0) (new_Node 20 30 0) = false.
Proof.
  unfold segment_free. cbn [x y new_Node]. rewrite !round_IZR. vm_compute. reflexivity.
Qed.

(** On the parking lot, the two-point path (20,5)-(20,30) crosses the
    horizontal wall at y = 17: [smooth_path] never returns on it. *)
Lemma smooth_path_blocked_start_never_returns_witness :
  [30] <> @nil R /\
  forall fuel,
    @smooth_path lot_base fuel lot_planner [20; 20] [5; 30] = Timeout.
Proof.
  split; [discriminate |].
  apply (@smooth_path_blocked_start_never_returns lot_base lot_planner 20 5 [20] [30]).
  - discriminate.
  - reflexivity.
  - intros xj yj [H | []]. inversion H; subst.
    exact lot_segment_20_5_to_20_30_blocked.
Defined.

End PathSmoothingOnTheLot.

Section TreeSearchFailure.
Import PyNum InformedTRRTStar.
Context {base : InformedRRTStar} {theta_star : ThetaStar}.

Lemma is_empty_true {A : Type} (l : list A) : is_empty l = true <-> l = [].
Proof. destruct l; split; intros; try easy. Qed.

(** [narrow_sample] indexes both coordinate lists up to the length of the
    first: with lists of equal length it cannot fall off the second. *)
Lemma narrow_sample_from_returns (margin : R) (x_path y_path : list R) :
  length x_path = length y_path ->
  forall count i acc,
    (i + count < length x_path \/ count = 0)%nat ->
    exists pr, narrow_sample_from margin x_path y_path i count acc = Ok pr.
Proof.
  intros Hlen count. induction count as [| count IH]; intros i acc Hi.
  - now exists acc.
  - destruct Hi as [Hi | Hi]; [| discriminate].
    cbn [narrow_sample_from]. unfold getitem.
    destruct (nth_error x_path i) as [x1 |] eqn:E1; [| apply nth_error_None in E1; lia].
    destruct (nth_error y_path i) as [y1 |] eqn:E2; [| apply nth_error_None in E2; lia].
    destruct (nth_error x_path (i + 1)) as [x2 |] eqn:E3;
      [| apply nth_error_None in E3; lia].
    destruct (nth_error y_path (i + 1)) as [y2 |] eqn:E4;
      [| apply nth_error_None in E4; lia].
    cbn [bind]. apply IH. left. lia.
Qed.

Lemma narrow_sample_returns (st : planner) (x_path y_path : list R) :
  length x_path = length y_path ->
  exists pr, narrow_sample st x_path y_path = Ok pr.
Proof.
  intros Hlen. unfold narrow_sample. apply narrow_sample_from_returns; [exact Hlen |].
  destruct x_path; cbn [length]; lia.
Qed.

(** C2: [search_route] of the tree planner answers with four empty
    sequences exactly in its failure cases.  (1) A seed planner that gives
    no path makes it fail at once.  (2) When the iterations end and the
    goal still has no parent, it answers with the empty sequences.  (3) It
    gives the empty sequences in no other case.  (4) With [max_iter = 0]
    (or less) a freshly built planner fails for every start, goal, map,
    search radius and random source, whatever loop budget is granted. *)
Theorem search_route_empty_exactly_on_failure :
  (forall fuel st rs,
     let seed := find_path (deref (mem st) (start st)) (deref (mem st) (goal st))
                           (map_instance st) in
     fst seed = [] \/ snd seed = [] ->
     search_route fuel st rs = Ok no_routes) /\
  (forall fuel st rs pr st' cur,
     let seed := find_path (deref (mem st) (start st)) (deref (mem st) (goal st))
                           (map_instance st) in
     narrow_sample st (fst seed) (snd seed) = Ok pr ->
     grow fuel (Z.to_nat (max_iter st)) st pr rs 0 = Ok (st', cur) ->
     parent (deref (mem st') (goal st')) = None ->
     search_route fuel st rs = Ok no_routes) /\
  (forall fuel st rs,
     let seed := find_path (deref (mem st) (start st)) (deref (mem st) (goal st))
                           (map_instance st) in
     search_route fuel st rs = Ok no_routes ->
     fst seed = [] \/ snd seed = [] \/
     exists pr st' cur,
       narrow_sample st (fst seed) (snd seed) = Ok pr /\
       grow fuel (Z.to_nat (max_iter st)) st pr rs 0 = Ok (st', cur) /\
       parent (deref (mem st') (goal st')) = None) /\
  (forall start_pose goal_pose m budget radius fuel rs,
     let st := init start_pose goal_pose m budget radius in
     let seed := find_path (deref (mem st) (start st)) (deref (mem st) (goal st))
                           (map_instance st) in
     (budget <= 0)%Z ->
     length (fst seed) = length (snd seed) ->
     search_route fuel st rs = Ok no_routes).
Proof.
  repeat split.
  - intros fuel st rs seed Hseed. unfold search_route. fold seed.
    destruct seed as [rx ry]. cbn [fst snd] in Hseed.
    destruct Hseed as [-> | ->]; [reflexivity |].
    now rewrite orb_true_r.
  - intros fuel st rs pr st' cur seed Hpr Hgrow Hparent. unfold search_route. fold seed.
    destruct seed as [rx ry]. cbn [fst snd] in Hpr.
    destruct (is_empty rx || is_empty ry); [reflexivity |].
    rewrite Hpr. cbn [bind]. rewrite Hgrow. cbn [bind]. now rewrite Hparent.
  - intros fuel st rs seed. unfold search_route. fold seed.
    destruct seed as [rx ry]. cbn [fst snd].
    destruct (is_empty rx || is_empty ry) eqn:Eempty.
    + intros _. apply orb_true_iff in Eempty.
      destruct Eempty as [E | E]; apply is_empty_true in E; auto.
    + destruct (narrow_sample st rx ry) as [pr | e |] eqn:Epr; cbn [bind];
        try discriminate.
      destruct (grow fuel (Z.to_nat (max_iter st)) st pr rs 0)
        as [[st' cur] | e |] eqn:Egrow; cbn [bind]; try discriminate.
      destruct (parent (deref (mem st') (goal st'))) as [p |] eqn:Eparent.
      * destruct (generate_final_course st') as [ox oy].
        destruct (smooth_path fuel st' ox oy) as [[sx sy] | e |]; cbn [bind];
          try discriminate.
        intros H. unfold no_routes in H. inversion H; subst.
        discriminate Eempty.
      * intros _. right. right. now exists pr, st', cur.
  - intros start_pose goal_pose m budget radius fuel rs st seed Hbudget Hlen.
    unfold search_route. fold seed. destruct seed as [rx ry]. cbn [fst snd] in Hlen.
    destruct (is_empty rx || is_empty ry); [reflexivity |].
    destruct (narrow_sample_returns st rx ry Hlen) as [pr Hpr].
    rewrite Hpr. cbn [bind].
    replace (Z.to_nat (max_iter st)) with 0%nat
      by (subst st; cbn [max_iter init]; lia).
    cbn [grow bind]. reflexivity.
Qed.

End TreeSearchFailure.

Section NeighbourRadius.
Import PyNum InformedTRRTStar.
Context {base : InformedRRTStar}.

Lemma adaptive_radius_infinite (st : planner) :
  c_best st = PInf -> 0 <= c_min st -> 0 < search_radius st ->
  adaptive_radius st = PInf.
Proof.
  intros Hbest Hmin Hradius. unfold adaptive_radius. rewrite Hbest.
  cbn [XFloat.np_div]. apply Rleb_true in Hmin. rewrite Hmin.
  cbn [XFloat.signed_inf XFloat.mul].
  unfold Reqb. destruct (Req_dec_T (search_radius st) 0); [lra |].
  apply Rltb_true in Hradius. now rewrite Hradius.
Qed.

Lemma near_nodes_spec (st : planner) (new_node : Node) (r : ref) :
  In r (near_nodes st new_node) <->
  In r (nodes st) /\
  XFloat.leb (Fin (hypot (x (deref (mem st) r) - x new_node)
                         (y (deref (mem st) r) - y new_node)))
             (adaptive_radius st) = true.
Proof. unfold near_nodes. apply filter_In. Qed.

Lemma near_nodes_infinite_radius (st : planner) (new_node : Node) :
  adaptive_radius st = PInf -> near_nodes st new_node = nodes st.
Proof.
  intros Hinf. unfold near_nodes. rewrite Hinf.
  rewrite (filter_ext _ (fun _ => true)) by reflexivity.
  induction (nodes st) as [| r l IH]; [reflexivity |].
  cbn [filter]. now rewrite IH.
Qed.

Lemma connect_goal_unbroken (st st' : planner) (new_ref : ref) :
  connect_goal st new_ref = (st', false) ->
  c_best st' = c_best st /\ c_min st' = c_min st /\ search_radius st' = search_radius st.
Proof.
  unfold connect_goal.
  destruct (Rleb _ _).
  - destruct (alloc _ _) as [h1 final_ref].
    destruct (is_collision_free _ _ _); intros H; inversion H; subst; auto.
  - intros H; inversion H; subst; auto.
Qed.

(** A pass of the loop that does not break leaves [c_best], [c_min] and
    [search_radius] as they were. *)
Lemma iteration_unbroken (fuel : nat) (st st' : planner) (pr : list region)
    (rs : nat -> R) (cur cur' : nat) :
  iteration fuel st pr rs cur = Ok (st', cur', false) ->
  c_best st' = c_best st /\ c_min st' = c_min st /\ search_radius st' = search_radius st.
Proof.
  unfold iteration.
  destruct (sample fuel st (Some pr) rs cur) as [[rand_node cur1] | e |];
    cbn [bind]; try discriminate.
  destruct (alloc (mem st) rand_node) as [h1 rand_ref].
  destruct (getitem _ _) as [nearest_ref | e |]; cbn [bind]; try discriminate.
  destruct (alloc h1 _) as [h2 new_ref].
  destruct (negb _).
  - intros H; inversion H; subst; auto.
  - match goal with
    | |- context [match ?b with Some _ => _ | None => _ end] => destruct b
    end.
    + destruct (alloc h2 _) as [h3 r3].
      destruct (connect_goal _ _) as [st6 broke] eqn:Egoal.
      intros H; inversion H; subst.
      apply connect_goal_unbroken in Egoal. exact Egoal.
    + destruct (connect_goal _ _) as [st6 broke] eqn:Egoal.
      intros H; inversion H; subst.
      apply connect_goal_unbroken in Egoal. exact Egoal.
Qed.

Lemma iteration_start_invariant (fuel : nat) (pr : list region) (rs : nat -> R)
    (st0 st : planner) (cur : nat) :
  iteration_start fuel pr rs st0 st cur ->
  c_best st = c_best st0 /\ c_min st = c_min st0 /\ search_radius st = search_radius st0.
Proof.
  induction 1 as [| st cur st' cur' _ IH Hiter]; [auto |].
  apply iteration_unbroken in Hiter.
  destruct IH as (? & ? & ?), Hiter as (? & ? & ?). repeat split; congruence.
Qed.

(** C4 (amended): in every pass of the growth loop the neighbour set
    consists of exactly the tree nodes within distance
    [search_radius * (c_best / c_min)] of the new node; [c_best] is still
    the initial infinity in every pass (it is only assigned when the goal
    is connected, which ends the loop), so for a positive [search_radius]
    that radius is infinite and the neighbour set is the whole tree. *)
Theorem near_nodes_within_adaptive_radius
    (start_pose goal_pose : Geometry.Pose) (m : ParkingLot.t) (budget : Z) (radius : R)
    (fuel : nat) (pr : list region) (rs : nat -> R) (st : planner) (cur : nat) :
  0 < radius ->
  iteration_start fuel pr rs (init start_pose goal_pose m budget radius) st cur ->
  forall (h : heap) (new_node : Node),
    let st2 := with_mem st h in
    (forall r,
       In r (near_nodes st2 new_node) <->
       In r (nodes st) /\
       XFloat.leb (Fin (hypot (x (deref h r) - x new_node) (y (deref h r) - y new_node)))
                  (adaptive_radius st2) = true) /\
    c_best st = PInf /\
    adaptive_radius st2 = PInf /\
    near_nodes st2 new_node = nodes st.
Proof.
  intros Hradius Hstart h new_node st2.
  apply iteration_start_invariant in Hstart. destruct Hstart as (Hbest & Hmin & Hrad).
  cbn [init c_best c_min search_radius] in Hbest, Hmin, Hrad.
  assert (adaptive_radius st2 = PInf) as Hinf.
  { apply adaptive_radius_infinite; subst st2; cbn [with_mem c_best c_min search_radius].
    - exact Hbest.
    - rewrite Hmin. apply hypot_nonneg.
    - rewrite Hrad. exact Hradius. }
  split; [| split; [exact Hbest | split; [exact Hinf |]]].
  - intros r. apply (near_nodes_spec st2 new_node r).
  - apply (near_nodes_infinite_radius st2 new_node Hinf).
Qed.

End NeighbourRadius.

Section NeighbourRadiusOnTheLot.
Import PyNum InformedTRRTStar Fixtures.

Lemma near_nodes_within_adaptive_radius_witness :
  0 < 10 /\
  @near_nodes (with_mem lot_planner (mem lot_planner)) (new_Node 20 5 0)
  = nodes lot_planner.
Proof.
  split; [lra |].
  apply (@near_nodes_within_adaptive_radius lot_base
           (Geometry.mkPose 20 5 0) (Geometry.mkPose 20 30 0) ParkingLot.init 300 10
           0 [] (fun _ => 0) lot_planner 0).
  - lra.
  - apply start_first.
Defined.

Lemma hypot_50_0 : hypot (70 - 20) (5 - 5) = 50.
Proof.
  unfold hypot. replace ((70 - 20) * (70 - 20) + (5 - 5) * (5 - 5)) with (50 * 50) by ring.
  apply sqrt_square. lra.
Qed.

(** Counterexample to C4 as stated: for the freshly built planner with
    [search_radius = 10] the radius is infinite rather than [search_radius];
    and with [c_best] still at its initial value, a tree node 50 units away
    from the new node is collected as a neighbour. *)
Lemma near_nodes_at_start_exceed_search_radius :
  adaptive_radius lot_planner = PInf /\
  c_best far_planner = PInf /\
  search_radius far_planner = 10 /\
  adaptive_radius far_planner <> Fin (search_radius far_planner) /\
  hypot (x (deref (mem far_planner) 2%nat) - x (new_Node 20 5 0))
        (y (deref (mem far_planner) 2%nat) - y (new_Node 20 5 0)) = 50 /\
  ~ 50 <= search_radius far_planner /\
  In 2%nat (near_nodes far_planner (new_Node 20 5 0)).
Proof.
  assert (adaptive_radius far_planner = PInf) as Hinf.
  { apply adaptive_radius_infinite; cbn.
    - reflexivity.
    - apply hypot_nonneg.
    - lra. }
  split.
  { apply adaptive_radius_infinite; cbn; [reflexivity | apply hypot_nonneg | lra]. }
  split; [reflexivity |]. split; [reflexivity |].
  split; [rewrite Hinf; discriminate |].
  split; [cbn; apply hypot_50_0 |].
  split; [cbn; lra |].
  rewrite (near_nodes_infinite_radius far_planner _ Hinf). cbn. auto.
Qed.

End NeighbourRadiusOnTheLot.

Section TreeSearchFailureOnTheLot.
Import PyNum InformedTRRTStar Fixtures.

Lemma search_route_empty_exactly_on_failure_witness :
  (forall fuel rs, @search_route lot_base no_seed fuel lot_planner rs = Ok no_routes) /\
  (forall fuel rs,
     @search_route lot_base straight_seed fuel
       (@init lot_base (Geometry.mkPose 20 5 0) (Geometry.mkPose 20 30 0)
              ParkingLot.init 0 10) rs
     = Ok no_routes).
Proof.
  split.
  - intros fuel rs.
    apply (proj1 (@search_route_empty_exactly_on_failure lot_base no_seed)).
    left. reflexivity.
  - intros fuel rs.
    apply (proj2 (proj2 (proj2 (@search_route_empty_exactly_on_failure
                                  lot_base straight_seed)))).
    + lia.
    + reflexivity.
Defined.

End TreeSearchFailureOnTheLot.

Section LoopsThatCollect.

(** A [for] loop that appends one computed entry per element returns the
    list of those entries as soon as every computation returns. *)
Lemma foldM_collect {A B : Type} (f : A -> outcome B) (l : list A) :
  (forall a, In a l -> exists b, f a = Ok b) ->
  forall acc, exists l',
    foldM (fun acc a => b <- f a ;; Ok (acc ++ [b])) l acc = Ok (acc ++ l') /\
    length l' = length l /\
    (forall b, In b l' -> exists a, In a l /\ f a = Ok b).
Proof.
  induction l as [| a l IH]; intros Hall acc.
  - exists []. rewrite app_nil_r. repeat split. intros b [].
  - destruct (Hall a (or_introl eq_refl)) as [b Hb].
    destruct (IH (fun a' Ha' => Hall a' (or_intror Ha')) (acc ++ [b]))
      as (l' & Hfold & Hlen & Hin).
    exists (b :: l'). cbn [foldM]. rewrite Hb. cbn [bind]. rewrite Hfold.
    rewrite <- app_assoc. repeat split.
    + cbn [length]. now rewrite Hlen.
    + intros b' [<- | Hb']; [exists a; split; [now left | exact Hb] |].
      destruct (Hin b' Hb') as (a' & Ha' & Hfa'). exists a'. split; [now right | exact Hfa'].
Qed.

Lemma foldM_ext {A B : Type} (f g : B -> A -> outcome B) (l : list A) :
  (forall b a, f b a = g b a) -> forall b, foldM f l b = foldM g l b.
Proof.
  intros Hfg. induction l as [| a l IH]; intros b; [reflexivity |].
  cbn [foldM]. rewrite Hfg. destruct (g b a); cbn [bind]; auto.
Qed.

Lemma argmin_from_bound (l : list R) :
  forall best_i best i, (best_i < i)%nat ->
    (Numpy.argmin_from best_i best i l < i + length l)%nat.
Proof.
  induction l as [| d t IH]; intros best_i best i Hlt; cbn [Numpy.argmin_from length].
  - lia.
  - destruct (Rlt_dec d best).
    + specialize (IH i d (S i)). lia.
    + specialize (IH best_i best (S i)). lia.
Qed.

Lemma argmin_bound (l : list R) :
  l <> [] -> exists k, Numpy.argmin l = Ok k /\ (k < length l)%nat.
Proof.
  destruct l as [| d t]; [contradiction |]. intros _.
  exists (Numpy.argmin_from 0 d 1 t). split; [reflexivity |].
  pose proof (argmin_from_bound t 0%nat d 1%nat). cbn [length]. lia.
Qed.

Lemma arange_length (lo hi : Z) : length (Numpy.arange lo hi) = Z.to_nat (hi - lo).
Proof.
  unfold Numpy.arange, ParkingLot.zrange. now rewrite length_map, length_seq.
Qed.

Lemma arange_nth (lo hi : Z) (k : nat) :
  (k < Z.to_nat (hi - lo))%nat ->
  nth_error (Numpy.arange lo hi) k = Some (lo + Z.of_nat k)%Z.
Proof.
  intros Hk. unfold Numpy.arange, ParkingLot.zrange.
  rewrite nth_error_map, nth_error_seq.
  apply Nat.ltb_lt in Hk. rewrite Hk. reflexivity.
Qed.

Lemma arange_In (lo hi i : Z) : In i (Numpy.arange lo hi) -> (lo <= i < hi)%Z.
Proof.
  unfold Numpy.arange, ParkingLot.zrange. rewrite in_map_iff.
  intros (k & <- & Hk). apply in_seq in Hk. lia.
Qed.

End LoopsThatCollect.

Section ReferenceWindow.
Import PyNum MPCController.

(** C7 (amended): on a reference trajectory whose rows have at least two
    columns and with the previous index inside it, the re-anchoring
    returns an index inside the window, between
    [max(previous - window_size, 0)] and
    [min(previous + window_size, max_ref_index)]: the index may move back,
    by at most [window_size] rows. *)
Theorem reanchor_within_window
    (ref_trajectory : list (list R)) (current_state : state) (ref_index : Z) :
  (0 <= ref_index <= Z.of_nat (length ref_trajectory) - 1)%Z ->
  (forall row, In row ref_trajectory -> (2 <= length row)%nat) ->
  exists ref_index',
    reanchor ref_trajectory current_state ref_index = Ok ref_index' /\
    (Z.max (ref_index - window_size) 0 <= ref_index'
     <= Z.min (ref_index + window_size) (Z.of_nat (length ref_trajectory) - 1))%Z.
Proof.
  intros Hidx Hrows. unfold reanchor.
  set (max_ref_index := (Z.of_nat (length ref_trajectory) - 1)%Z) in *.
  set (search_start := Z.max (ref_index - window_size) 0).
  set (search_end := Z.min (ref_index + window_size) max_ref_index).
  assert (search_start <= search_end)%Z as Hwindow
    by (unfold search_start, search_end, window_size; lia).
  assert (0 <= search_start)%Z as Hstart by (unfold search_start; lia).
  assert (search_end <= max_ref_index)%Z as Hend by (unfold search_end; lia).
  (* the rows of the window *)
  destruct (foldM_collect
              (fun i => row <- getitem ref_trajectory (Z.to_nat i) ;; Ok (firstn 2 row))
              (Numpy.arange search_start (search_end + 1))) with (acc := @nil (list R))
    as (ref_points & Hpoints & Hplen & Hpin).
  { intros i Hi. apply arange_In in Hi. unfold getitem.
    destruct (nth_error ref_trajectory (Z.to_nat i)) as [row |] eqn:E.
    - now exists (firstn 2 row).
    - apply nth_error_None in E. unfold max_ref_index in Hend. lia. }
  cbn [app] in Hpoints.
  rewrite (foldM_ext _ (fun acc i =>
             b <- (row <- getitem ref_trajectory (Z.to_nat i) ;; Ok (firstn 2 row)) ;;
             Ok (acc ++ [b])))
    by (intros acc i; now destruct (getitem ref_trajectory (Z.to_nat i))).
  rewrite Hpoints. cbn [bind]. destruct current_state as [[[sx sy] stheta] sv].
  (* their distances *)
  destruct (foldM_collect (fun p => d <- Numpy.sub p [sx; sy] ;; Ok (Numpy.norm d))
                          ref_points) with (acc := @nil R)
    as (distances & Hdist & Hdlen & _).
  { intros p Hp. destruct (Hpin p Hp) as (i & _ & Hi). unfold getitem in Hi.
    destruct (nth_error ref_trajectory (Z.to_nat i)) as [row |] eqn:E;
      cbn [bind] in Hi; [| discriminate].
    inversion Hi; subst p. apply nth_error_In in E. apply Hrows in E.
    destruct row as [| a [| b row]]; cbn [length] in E; try lia.
    cbn. eauto. }
  cbn [app] in Hdist.
  rewrite (foldM_ext _ (fun acc p =>
             b <- (d <- Numpy.sub p [sx; sy] ;; Ok (Numpy.norm d)) ;; Ok (acc ++ [b])))
    by (intros acc p; now destruct (Numpy.sub p [sx; sy])).
  rewrite Hdist. cbn [bind].
  assert (length distances = Z.to_nat (search_end + 1 - search_start)) as Hlen
    by (rewrite Hdlen, Hplen; apply arange_length).
  destruct (argmin_bound distances) as (k & Hk & Hklt).
  { intros ->. cbn [length] in Hlen. lia. }
  rewrite Hk. cbn [bind]. unfold getitem.
  rewrite arange_nth by lia.
  exists (search_start + Z.of_nat k)%Z. split; [reflexivity | lia].
Qed.

Lemma norm_on_axis (a : R) : 0 <= a -> Numpy.norm [a - 0; 0 - 0] = a.
Proof.
  intros Ha. unfold Numpy.norm, Numpy.sum_sq. cbn [fold_left].
  replace (0 + (a - 0) ^ 2 + (0 - 0) ^ 2) with (a * a) by ring.
  now apply sqrt_square.
Qed.

(** Counterexample to C7 as stated: on the three reference points (0,0),
    (1,0), (2,0), with the previous index 2 and the vehicle at (0,0), the
    re-anchoring returns index 0. *)
Lemma reanchor_can_regress :
  reanchor [[0; 0; 0]; [1; 0; 0]; [2; 0; 0]] (0, 0, 0, 0) 2 = Ok 0%Z /\ (0 < 2)%Z.
Proof.
  split; [| lia].
  transitivity
    (min_distance_index <-
       Numpy.argmin [Numpy.norm [0 - 0; 0 - 0]; Numpy.norm [1 - 0; 0 - 0];
                     Numpy.norm [2 - 0; 0 - 0]] ;;
     getitem [0; 1; 2]%Z min_distance_index);
    [reflexivity |].
  rewrite !norm_on_axis by lra.
  cbn [Numpy.argmin Numpy.argmin_from].
  destruct (Rlt_dec 1 0); [lra |].
  destruct (Rlt_dec 2 0); [lra |].
  reflexivity.
Qed.

Lemma reanchor_within_window_witness :
  exists ref_index',
    reanchor [[0; 0; 0]; [1; 0; 0]; [2; 0; 0]] (0, 0, 0, 0) 2 = Ok ref_index' /\
    (Z.max (2 - window_size) 0 <= ref_index' <= Z.min (2 + window_size) (3 - 1))%Z.
Proof.
  apply (reanchor_within_window [[0; 0; 0]; [1; 0; 0]; [2; 0; 0]] (0, 0, 0, 0) 2).
  - cbn. lia.
  - intros row [<- | [<- | [<- | []]]]; cbn; lia.
Defined.

End ReferenceWindow.

Section ControlFallback.
Import PyNum.

Lemma foldM_unchanged {A B : Type} (f : B -> A -> outcome B) (l : list A) (b : B) :
  (forall a, In a l -> f b a = Ok b) -> foldM f l b = Ok b.
Proof.
  induction l as [| a l IH]; intros Hall; [reflexivity |].
  cbn [foldM]. rewrite (Hall a (or_introl eq_refl)). cbn [bind].
  apply IH. intros a' Ha'. apply Hall. now right.
Qed.



Context {base : MPCController.BaseController}.



End ControlFallback.

Section ControlFallbackOnTheLot.
Import PyNum Fixtures.




End ControlFallbackOnTheLot.

Section FollowTrajectory.
Import PyNum MPCController.
Context {base : BaseController} {utils : Utils}.

(** The loop of [follow_trajectory] is left only through the [break] that
    follows a successful goal test. *)
Lemma follow_loop_exit (self : MPCController) (ref_trajectory : list (list R))
    (goal_position : R * R) (fuel : nat) :
  forall ls ls',
    follow_loop fuel self ref_trajectory goal_position ls = Ok ls' ->
    is_goal_reached self (current_state ls') goal_position = true.
Proof.
  induction fuel as [| fuel IH]; intros ls ls'; cbn [follow_loop]; [discriminate |].
  destruct (is_goal_reached self (current_state ls) goal_position) eqn:Egoal.
  - intros H. inversion H; subst. exact Egoal.
  - destruct (reanchor _ _ _) as [ref_index' | e |]; cbn [bind]; try discriminate.
    destruct (ref_segment_at _ _ _) as [ref_segment | e |]; cbn [bind]; try discriminate.
    destruct (optimize_control _ _ _) as [[control_input predicted] | e |];
      cbn [bind]; try discriminate.
    destruct control_input as [c |]; [| discriminate].
    apply IH.
Qed.

(** C10: whenever [follow_trajectory] of the controller variant returns,
    its reached flag is [True] and the returned trajectory is the one the
    loop accumulated, ending in a state that passes the goal test: the
    final adjustment has not been applied. *)
Theorem follow_trajectory_returns_reached
    (fuel : nat) (self : MPCController) (start_pose : Geometry.Pose)
    (ref_trajectory : list (list R)) (goal_position : R * R)
    (is_reached : bool) (total_distance : R) (traj : list state)
    (steering accel : list R) :
  follow_trajectory fuel self start_pose ref_trajectory goal_position
  = Ok (is_reached, total_distance, traj, steering, accel) ->
  is_reached = true /\
  exists row1 r10 r11 ls,
    getitem ref_trajectory 1 = Ok row1 /\
    getitem row1 0 = Ok r10 /\
    getitem row1 1 = Ok r11 /\
    follow_loop fuel self ref_trajectory goal_position
                (initial_loop_state start_pose r10 r11) = Ok ls /\
    is_goal_reached self (current_state ls) goal_position = true /\
    traj = trajectory ls /\
    traj <> final_adjustment goal_position ls /\
    total_distance = calculate_trajectory_distance (trajectory ls).
Proof.
  unfold follow_trajectory.
  destruct (getitem ref_trajectory 1) as [row1 | e |]; cbn [bind]; try discriminate.
  destruct (getitem row1 0) as [r10 | e |] eqn:E0; cbn [bind]; try discriminate.
  destruct (getitem row1 1) as [r11 | e |] eqn:E1; cbn [bind]; try discriminate.
  set (ls0 := initial_loop_state start_pose r10 r11).
  destruct (follow_loop fuel self ref_trajectory goal_position ls0) as [ls | e |] eqn:Eloop;
    cbn [bind]; try discriminate.
  pose proof (follow_loop_exit _ _ _ _ _ _ Eloop) as Hgoal.
  rewrite Hgoal. cbn [negb]. intros H. inversion H; subst.
  split; [reflexivity |]. exists row1, r10, r11, ls. repeat split; try assumption.
  unfold final_adjustment.
  destruct (current_state ls) as [[[sx sy] stheta] sv]. destruct goal_position as [gx gy].
  destruct (trajectory ls) as [| s1 [| s2 t]].
  - discriminate.
  - discriminate.
  - intros Heq. apply (f_equal (@length state)) in Heq.
    rewrite length_app in Heq.
    assert (length (removelast (s1 :: s2 :: t)) = S (length t)) as Hrl.
    { change (s1 :: s2 :: t) with ([s1] ++ (s2 :: t)).
      rewrite removelast_app by discriminate. cbn [length app].
      destruct t as [| s3 t] using rev_ind; [reflexivity |].
      change (s2 :: t ++ [s3]) with ((s2 :: t) ++ [s3]).
      rewrite removelast_last. cbn [length]. rewrite length_app. cbn [length]. lia. }
    rewrite Hrl in Heq. cbn [length] in Heq. lia.
Qed.

End FollowTrajectory.

Section FollowTrajectoryOnTheLot.
Import PyNum MPCController Fixtures.

Lemma standing_at_goal (stheta sv : R) :
  is_goal_reached (BaseController := lot_controller_base) lot_controller
                  (20, 5, stheta, sv) (20, 5) = true.
Proof.
  cbn. replace (20 - 20) with 0 by ring. replace (5 - 5) with 0 by ring.
  rewrite hypot_0_0. apply Rltb_true. lra.
Qed.

(** A vehicle that starts on the goal: the loop is left at its first
    test. *)
Lemma follow_trajectory_returns_reached_witness :
  let s0 := (20, 5, calculate_angle (Utils := lot_utils) 20 5 20 6, 0) in
  let d := calculate_trajectory_distance (Utils := lot_utils) [s0] in
  follow_trajectory (base := lot_controller_base) (utils := lot_utils)
    1 lot_controller (Geometry.mkPose 20 5 0) [[20; 5; 0]; [20; 6; 0]] (20, 5)
  = Ok (true, d, [s0], [], []) /\
  (true = true /\
   exists row1 r10 r11 ls,
     getitem [[20; 5; 0]; [20; 6; 0]] 1 = Ok row1 /\
     getitem row1 0 = Ok r10 /\
     getitem row1 1 = Ok r11 /\
     follow_loop (base := lot_controller_base) 1 lot_controller
                 [[20; 5; 0]; [20; 6; 0]] (20, 5)
                 (initial_loop_state (utils := lot_utils)
                    (Geometry.mkPose 20 5 0) r10 r11) = Ok ls /\
     is_goal_reached (BaseController := lot_controller_base) lot_controller
                     (current_state ls) (20, 5) = true /\
     [s0] = trajectory ls /\
     [s0] <> final_adjustment (utils := lot_utils) (20, 5) ls /\
     d = calculate_trajectory_distance (Utils := lot_utils) (trajectory ls)).
Proof.
  intros s0 d.
  assert (follow_trajectory (base := lot_controller_base) (utils := lot_utils)
            1 lot_controller (Geometry.mkPose 20 5 0) [[20; 5; 0]; [20; 6; 0]] (20, 5)
          = Ok (true, d, [s0], [], [])) as Hrun.
  { unfold follow_trajectory. cbn [getitem nth_error bind follow_loop].
    unfold initial_loop_state. cbn [Geometry.x Geometry.y current_state].
    rewrite standing_at_goal. cbn [bind current_state negb trajectory steering_angles
                                   accelations].
    rewrite standing_at_goal. reflexivity. }
  split; [exact Hrun |].
  exact (follow_trajectory_returns_reached (base := lot_controller_base)
           (utils := lot_utils) _ _ _ _ _ _ _ _ _ _ Hrun).
Defined.

End FollowTrajectoryOnTheLot.

Section Dictionaries.
Import HybridAStar.

Lemma dict_get_set (d : dict) (k k' : Z) (n : Node) :
  dict_get (dict_set d k n) k' = if (k =? k')%Z then Some n else dict_get d k'.
Proof.
  induction d as [| [k0 n0] t IH]; cbn [dict_set dict_get].
  - reflexivity.
  - destruct (Z.eqb_spec k0 k) as [-> | Hne]; cbn [dict_get].
    + destruct (Z.eqb_spec k k'); reflexivity.
    + rewrite IH. destruct (Z.eqb_spec k0 k'), (Z.eqb_spec k k'); congruence.
Qed.






End Dictionaries.

Section GridSearch.
Import PyNum HybridAStar.
Context {utils : Utils}.
Variable self : HybridAStarRoutePlanner.
Hypothesis start_has_no_parent : parent_node_index (start_node self) = (-1)%Z.
Hypothesis start_index_is_no_marker :
  grid_index (map_instance self) (start_node self) <> (-1)%Z.















End GridSearch.

Section GridSearchResult.
Import PyNum HybridAStar.
Context {utils : Utils}.


End GridSearchResult.

Section GridSearchBothAnswers.
Import PyNum HybridAStar.
Context {utils : Utils}.

(** X12: success does occur: a start pose within one unit of the goal is
    answered at the first pass, with the one-point route. *)
Lemma search_route_start_near_goal (start_pose goal_pose : Pose) (m : ParkingLot.t) :
  let self := init start_pose goal_pose m in
  calculate_distance_to_end self start_pose <= 1 ->
  forall fuel, (2 <= fuel)%nat ->
    search_route fuel self = Ok (route_found self (start_node self) []).
Proof.
  intros self Hnear fuel Hfuel. subst self.
  destruct fuel as [| fuel]; [lia |].
  unfold search_route. cbn [search_loop dict_min_from start_node init new_Node pose].
  case_Rdec; [| contradiction].
  destruct fuel as [| fuel]; [lia |]. reflexivity.
Qed.

Lemma narrow_lot_blocks_everything (m : ParkingLot.t) (a b : ParkingLot.cell) :
  (ParkingLot.lot_width m <= 1)%Z ->
  ParkingLot.is_not_crossed_obstacle m a b = false.
Proof.
  intros Hw. unfold ParkingLot.is_not_crossed_obstacle.
  destruct (0 <? fst b)%Z eqn:E1, (fst b <? ParkingLot.lot_width m)%Z eqn:E2;
    rewrite ?andb_false_r, ?andb_false_l; try reflexivity.
  apply Z.ltb_lt in E1, E2. lia.
Qed.

(** X13: failure does occur: on a lot too narrow to hold a free cell, a
    start pose away from the goal has no successor, the open set empties and
    the failure marker is returned. *)
Lemma search_route_no_successor (start_pose goal_pose : Pose) (m : ParkingLot.t) :
  let self := init start_pose goal_pose m in
  (ParkingLot.lot_width m <= 1)%Z ->
  ~ calculate_distance_to_end self start_pose <= 1 ->
  forall fuel, (2 <= fuel)%nat -> search_route fuel self = Ok no_route.
Proof.
  intros self Hw Hfar fuel Hfuel. subst self.
  destruct fuel as [| fuel]; [lia |].
  unfold search_route. cbn [search_loop dict_min_from start_node init new_Node pose].
  case_Rdec; [contradiction |].
  cbn [dict_del]. rewrite Z.eqb_refl.
  match goal with
  | |- context [fold_left ?f ?l []] =>
      assert (fold_left f l [] = []) as ->
  end.
  { match goal with |- fold_left ?f ?l [] = [] => induction l as [| next rest IH] end;
      [reflexivity |].
    cbn [fold_left]. unfold relax at 2. cbn [map_instance].
    now rewrite narrow_lot_blocks_everything. }
  destruct fuel as [| fuel]; [lia |]. reflexivity.
Qed.

End GridSearchBothAnswers.

Section GridSearchOnTheLot.
Import PyNum HybridAStar Fixtures.


End GridSearchOnTheLot.

(* ================================================================== *)
(** * Part III: further properties of the embedded code *)
(* ================================================================== *)

Section LotGeometry.
Import ParkingLot.
Open Scope Z_scope.

(** The orientation test only depends on the cyclic order of its three
    points. *)
Lemma ccw_rotate (A B C : cell) : ccw A B C = ccw C A B.
Proof.
  unfold ccw. rewrite !Z.gtb_ltb.
  assert ((snd C - snd A) * (fst B - fst A) - (snd B - snd A) * (fst C - fst A)
          = (snd B - snd C) * (fst A - fst C) - (snd A - snd C) * (fst B - fst C))
    as Hdet by ring.
  destruct (Z.ltb_spec ((snd B - snd A) * (fst C - fst A))
                       ((snd C - snd A) * (fst B - fst A)));
    destruct (Z.ltb_spec ((snd A - snd C) * (fst B - fst C))
                         ((snd B - snd C) * (fst A - fst C)));
    try reflexivity; lia.
Qed.

(** X1: [get_grid_index] gives different indices to different cells whose
    column lies in [0, lot_width): the keys of the open and closed sets do
    not collide on such cells. *)
Theorem get_grid_index_injective (m : t) (x1 y1 x2 y2 : Z) :
  0 <= x1 < lot_width m ->
  0 <= x2 < lot_width m ->
  get_grid_index m x1 y1 = get_grid_index m x2 y2 ->
  x1 = x2 /\ y1 = y2.
Proof.
  unfold get_grid_index. intros H1 H2 Heq.
  assert (y1 = y2) as -> by nia. split; [lia | reflexivity].
Qed.

Lemma get_grid_index_injective_witness :
  0 <= 5 < lot_width init /\
  get_grid_index init 5 7 = 579 /\
  (5 = 5 /\ 7 = 7).
Proof.
  split; [vm_compute; split; congruence |].
  split; [reflexivity |].
  apply (get_grid_index_injective init 5 7 5 7).
  - vm_compute; split; congruence.
  - vm_compute; split; congruence.
  - reflexivity.
Defined.

(** X2: [intersect] does not depend on which of the two segments is given
    first. *)
Theorem intersect_commutes (line1 line2 : line) :
  intersect line1 line2 = intersect line2 line1.
Proof.
  destruct line1 as [A B], line2 as [C D]. unfold intersect. cbn [fst snd].
  rewrite (ccw_rotate C D A), (ccw_rotate C D B).
  rewrite <- (ccw_rotate A B C), <- (ccw_rotate A B D).
  apply andb_comm.
Qed.

(** A segment reduced to one point crosses no line. *)
Lemma intersect_point (obstacle_line : line) (c : cell) :
  intersect obstacle_line (c, c) = false.
Proof.
  unfold intersect, ccw. cbn [fst snd].
  rewrite !Z.gtb_ltb, !Z.ltb_irrefl. reflexivity.
Qed.

Lemma zrange_In (lo hi k : Z) : In k (zrange lo hi) <-> lo <= k < hi.
Proof.
  unfold zrange. rewrite in_map_iff. split.
  - intros (i & <- & Hi). apply in_seq in Hi. lia.
  - intros Hk. exists (Z.to_nat (k - lo)). split; [lia | apply in_seq; lia].
Qed.

(** X3: [create_outer_walls] occupies every cell of the border of the
    rectangle [0, lot_width] x [0, lot_height], keeps the obstacles already
    registered and leaves the size of the lot as it was. *)
Theorem create_outer_walls_border (m : t) :
  lot_width (create_outer_walls m) = lot_width m /\
  lot_height (create_outer_walls m) = lot_height m /\
  (forall c, In c (obstacles m) -> In c (obstacles (create_outer_walls m))) /\
  (forall x y,
     0 <= x <= lot_width m -> 0 <= y <= lot_height m ->
     x = 0 \/ x = lot_width m \/ y = 0 \/ y = lot_height m ->
     In (x, y) (obstacles (create_outer_walls m))).
Proof.
  repeat split.
  - intros c Hc. cbn [create_outer_walls obstacles]. apply in_or_app. now left.
  - intros x y Hx Hy Hborder. cbn [create_outer_walls obstacles].
    apply in_or_app. right. apply in_or_app.
    destruct (Z.eq_dec y 0) as [-> | Hy0].
    { left. apply in_flat_map. exists x. split; [apply zrange_In; lia | now left]. }
    destruct (Z.eq_dec y (lot_height m)) as [-> | HyH].
    { left. apply in_flat_map. exists x.
      split; [apply zrange_In; lia | right; now left]. }
    right. apply in_flat_map. exists y. split; [apply zrange_In; lia |].
    destruct Hborder as [-> | [-> | [? | ?]]]; try lia; [now left | right; now left].
Qed.

Lemma create_outer_walls_border_witness :
  In (82, 10) (obstacles (create_outer_walls (mk 82 63 [] []))).
Proof.
  apply (proj2 (proj2 (proj2 (create_outer_walls_border (mk 82 63 [] []))))).
  - cbn. lia.
  - cbn. lia.
  - right. left. reflexivity.
Defined.

End LotGeometry.

Section BasicCollisionTest.
Import PyNum.

(** X4: the collision test of the basic controller hands the map the same
    cell as both ends of the segment, so no obstacle line is ever found
    crossed: a state passes exactly when its rounded cell is not an occupied
    cell and lies strictly inside the lot. *)
Theorem basic_is_collision_free_is_cell_test
    (self : MPCBasic.MPCController) (sx sy stheta sv : R) :
  let m := MPCBasic.map_instance self in
  let c := (round sx, round sy) in
  MPCBasic.is_collision_free self (sx, sy, stheta, sv)
  = negb (existsb (ParkingLot.cell_eqb c) (ParkingLot.obstacles m))
    && ((0 <? fst c)%Z && (fst c <? ParkingLot.lot_width m)%Z)
    && ((0 <? snd c)%Z && (snd c <? ParkingLot.lot_height m)%Z).
Proof.
  intros m c. subst m c.
  unfold MPCBasic.is_collision_free, ParkingLot.is_not_crossed_obstacle.
  assert (forall c lines,
            existsb (fun obstacle_line => ParkingLot.intersect obstacle_line (c, c)) lines
            = false) as Hnone.
  { intros c lines. induction lines as [| l ls IH]; [reflexivity |].
    cbn [existsb]. now rewrite intersect_point, IH. }
  rewrite Hnone. cbn [negb]. now rewrite andb_true_r.
Qed.

End BasicCollisionTest.

Section GridNodes.
Import PyNum HybridAStar.

Lemma round_within_half (v : R) : Rabs (v - IZR (round v)) <= 1 / 2.
Proof.
  unfold round. pose proof (Zfloor_bound v) as [Hlo Hhi].
  destruct (Rlt_dec (v - IZR (Zfloor v)) (1 / 2)).
  - apply Rabs_le. lra.
  - destruct (Rlt_dec (1 / 2) (v - IZR (Zfloor v))).
    + rewrite plus_IZR. apply Rabs_le. lra.
    + destruct (Z.even (Zfloor v)); [| rewrite plus_IZR]; apply Rabs_le; lra.
Qed.

(** X5: a node's grid cell is the cell nearest to its pose: each rounded
    coordinate is within half a unit of the continuous one. *)
Theorem node_cell_within_half_unit (p : Pose) (c s : R) (parent : Z) :
  Rabs (x p - IZR (discrete_x (new_Node p c s parent))) <= 1 / 2 /\
  Rabs (y p - IZR (discrete_y (new_Node p c s parent))) <= 1 / 2.
Proof. cbn [new_Node discrete_x discrete_y]. split; apply round_within_half. Qed.


(** X7: the heuristic is at least the straight distance to the goal, hence
    never negative, and exceeds it by at most pi/10 for the heading plus ten
    times the steering magnitude. *)
Theorem calculate_heuristic_cost_bounds (self : HybridAStarRoutePlanner) (node : Node) :
  0 <= calculate_distance_to_end self (pose node) <= calculate_heuristic_cost self node /\
  calculate_heuristic_cost self node
  <= calculate_distance_to_end self (pose node) + PI / 10 + 10 * Rabs (steering node).
Proof.
  unfold calculate_heuristic_cost.
  set (d := calculate_distance_to_end self (pose node)).
  assert (0 <= d) as Hd by apply sqrt_pos.
  pose proof (Rabs_pos (steering node)) as Hs.
  pose proof (atan2_range (sin (theta (pose node) - theta (pose (goal_node self))))
                          (cos (theta (pose node) - theta (pose (goal_node self)))))
    as [Hlo Hhi].
  fold (change_radians_range (theta (pose node) - theta (pose (goal_node self)))) in Hlo, Hhi.
  set (a := change_radians_range (theta (pose node) - theta (pose (goal_node self)))) in *.
  assert (0 <= Rabs a <= PI) as Ha.
  { split; [apply Rabs_pos | apply Rabs_le; lra]. }
  repeat split; lra.
Qed.



End GridNodes.

Section GridPasses.
Import PyNum HybridAStar GridSearchRun.
Context {utils : Utils}.
Variable self : HybridAStarRoutePlanner.
Hypothesis start_index_is_no_marker :
  grid_index (map_instance self) (start_node self) <> (-1)%Z.

(** [pop] and [expand] are the two halves of a pass of [search_loop]. *)
Lemma search_loop_pass (fuel : nat) (open_set closed_set : dict) (index : Z)
    (current : Node) :
  pop self open_set = Some (index, current) ->
  ~ calculate_distance_to_end self (pose current) <= 1 ->
  search_loop (S fuel) self open_set closed_set
  = search_loop fuel self (fst (expand self open_set closed_set index current))
                          (snd (expand self open_set closed_set index current)).
Proof.
  intros Hpop Hfar. destruct open_set as [| first others]; [discriminate |].
  cbn [pop] in Hpop. inversion Hpop as [Hmin]. cbn [search_loop]. rewrite Hmin.
  unfold expand. cbn [fst snd].
  destruct (Rle_dec (calculate_distance_to_end self (pose current)) 1);
    [contradiction |].
  reflexivity.
Qed.






End GridPasses.

Section GridPassesOnTheLot.
Import PyNum HybridAStar GridSearchRun Fixtures.




End GridPassesOnTheLot.

Section Relaxation.
Import PyNum HybridAStar.

Lemma relax_keeps_cheaper (m : ParkingLot.t) (current : Node) (closed_set open_set : dict)
    (next : Node) (k : Z) (n : Node) :
  dict_get open_set k = Some n ->
  exists n', dict_get (relax m current closed_set open_set next) k = Some n' /\
             cost n' <= cost n.
Proof.
  intros Hk. unfold relax.
  destruct (ParkingLot.is_not_crossed_obstacle _ _ _); [| exists n; split; [exact Hk | lra]].
  destruct (dict_mem closed_set (grid_index m next)); [exists n; split; [exact Hk | lra] |].
  destruct (dict_get open_set (grid_index m next)) as [known |] eqn:Eknown.
  - destruct (Rlt_dec (cost next) (cost known)) as [Hlt | _];
      [| exists n; split; [exact Hk | lra]].
    rewrite dict_get_set. destruct (Z.eqb_spec (grid_index m next) k) as [Heq | _].
    + exists next. split; [reflexivity |]. rewrite Heq in Eknown.
      rewrite Hk in Eknown. inversion Eknown; subst. lra.
    + exists n. split; [exact Hk | lra].
  - rewrite dict_get_set. destruct (Z.eqb_spec (grid_index m next) k) as [Heq | _].
    + rewrite Heq in Eknown. congruence.
    + exists n. split; [exact Hk | lra].
Qed.

(** X11: while the successors of a node are relaxed into the open set, a
    key that is in the open set stays in it, and the cost of the node stored
    under it never increases. *)
Theorem relax_fold_keeps_cheaper (m : ParkingLot.t) (current : Node) (closed_set : dict)
    (successors : list Node) (open_set : dict) (k : Z) (n : Node) :
  dict_get open_set k = Some n ->
  exists n',
    dict_get (fold_left (relax m current closed_set) successors open_set) k = Some n' /\
    cost n' <= cost n.
Proof.
  revert open_set n. induction successors as [| next rest IH]; intros open_set n Hk;
    cbn [fold_left].
  - exists n. split; [exact Hk | lra].
  - destruct (relax_keeps_cheaper m current closed_set open_set next k n Hk)
      as (n1 & Hk1 & Hle1).
    destruct (IH _ _ Hk1) as (n2 & Hk2 & Hle2).
    exists n2. split; [exact Hk2 | lra].
Qed.

End Relaxation.

Section GridSearchScenarios.
Import PyNum HybridAStar Fixtures.

Lemma relax_fold_keeps_cheaper_witness :
  exists n',
    dict_get (fold_left (relax ParkingLot.init (start_node lot_search) [])
                        (next_nodes (start_node lot_search) 166)
                        [(166%Z, start_node lot_search)]) 166
    = Some n' /\
    cost n' <= cost (start_node lot_search).
Proof.
  apply (relax_fold_keeps_cheaper ParkingLot.init (start_node lot_search) []
           (next_nodes (start_node lot_search) 166)
           [(166%Z, start_node lot_search)] 166 (start_node lot_search)).
  reflexivity.
Defined.

Lemma distance_to_itself (p : Pose) (m : ParkingLot.t) :
  calculate_distance_to_end (init p p m) p = 0.
Proof.
  unfold calculate_distance_to_end. cbn [init goal_node new_Node pose].
  replace ((x p - x p) ^ 2 + (y p - y p) ^ 2) with 0 by ring. apply sqrt_0.
Qed.

Lemma search_route_start_near_goal_witness :
  search_route (utils := route_utils) 2 (init (mkPose 2 2 0) (mkPose 2 2 0) ParkingLot.init)
  = Ok (route_found (utils := route_utils)
          (init (mkPose 2 2 0) (mkPose 2 2 0) ParkingLot.init)
          (start_node (init (mkPose 2 2 0) (mkPose 2 2 0) ParkingLot.init)) []).
Proof.
  apply (search_route_start_near_goal (utils := route_utils)
           (mkPose 2 2 0) (mkPose 2 2 0) ParkingLot.init).
  - rewrite distance_to_itself. lra.
  - lia.
Defined.

Lemma search_route_no_successor_witness :
  search_route (utils := route_utils) 2
    (init (mkPose 2 2 0) (mkPose 2 5 0) (ParkingLot.mk 1 1 [] []))
  = Ok no_route.
Proof.
  apply (search_route_no_successor (utils := route_utils)
           (mkPose 2 2 0) (mkPose 2 5 0) (ParkingLot.mk 1 1 [] [])).
  - cbn. lia.
  - unfold calculate_distance_to_end. cbn [init goal_node new_Node pose x y].
    replace ((2 - 2) ^ 2 + (2 - 5) ^ 2) with (3 * 3) by ring.
    rewrite sqrt_square by lra. lra.
  - lia.
Defined.

End GridSearchScenarios.

Section Corridor.
Import PyNum InformedTRRTStar.

Lemma narrow_sample_from_segments (margin : R) (x_path y_path : list R) :
  forall count i acc pr,
    narrow_sample_from margin x_path y_path i count acc = Ok pr ->
    exists segments,
      pr = acc ++ segments /\
      length segments = count /\
      forall k x1 y1 x2 y2,
        (k < count)%nat ->
        nth_error x_path (i + k) = Some x1 -> nth_error y_path (i + k) = Some y1 ->
        nth_error x_path (S (i + k)) = Some x2 -> nth_error y_path (S (i + k)) = Some y2 ->
        nth_error segments k = Some (x1, y1, x2, y2, margin).
Proof.
  induction count as [| count IH]; intros i acc pr; cbn [narrow_sample_from].
  - intros H. inversion H; subst. exists []. rewrite app_nil_r. repeat split. intros; lia.
  - unfold getitem.
    destruct (nth_error x_path i) as [x1 |] eqn:E1; cbn [bind]; [| discriminate].
    destruct (nth_error y_path i) as [y1 |] eqn:E2; cbn [bind]; [| discriminate].
    destruct (nth_error x_path (i + 1)) as [x2 |] eqn:E3; cbn [bind]; [| discriminate].
    destruct (nth_error y_path (i + 1)) as [y2 |] eqn:E4; cbn [bind]; [| discriminate].
    intros H. apply IH in H. destruct H as (segments & -> & Hlen & Hnth).
    exists ((x1, y1, x2, y2, margin) :: segments). rewrite <- app_assoc.
    repeat split; [cbn [length]; lia |].
    intros k a b c d Hk Ha Hb Hc Hd. destruct k as [| k].
    + rewrite Nat.add_0_r in *. replace (i + 1)%nat with (S i) in * by lia.
      cbn [nth_error]. rewrite Ha in E1. rewrite Hb in E2. rewrite Hc in E3.
      rewrite Hd in E4. inversion E1; inversion E2; inversion E3; inversion E4.
      reflexivity.
    + cbn [nth_error]. apply Hnth; [lia | | | |];
        replace (S i + k)%nat with (i + S k)%nat by lia; assumption.
Qed.

Lemma narrow_sample_from_short (margin : R) (x_path y_path : list R) :
  (length y_path < length x_path)%nat ->
  forall count i acc,
    (0 < count)%nat -> (i + count = length x_path - 1)%nat ->
    narrow_sample_from margin x_path y_path i count acc = Raise IndexError.
Proof.
  intros Hshort. induction count as [| count IH]; intros i acc Hpos Hend; [lia |].
  cbn [narrow_sample_from]. unfold getitem.
  destruct (nth_error x_path i) as [x1 |] eqn:E1; [| apply nth_error_None in E1; lia].
  cbn [bind].
  destruct (nth_error y_path i) as [y1 |] eqn:E2; [| reflexivity]. cbn [bind].
  destruct (nth_error x_path (i + 1)) as [x2 |] eqn:E3; [| apply nth_error_None in E3; lia].
  cbn [bind].
  destruct (nth_error y_path (i + 1)) as [y2 |] eqn:E4; [| reflexivity]. cbn [bind].
  apply IH; [| lia].
  assert (i + 1 < length y_path)%nat by (apply nth_error_Some; congruence). lia.
Qed.

(** X14: from a seed path with as many x as y values, [narrow_sample]
    builds one corridor segment per pair of consecutive points, in order,
    each with margin [search_radius / 2]; from a seed path of two or more
    points with fewer y than x values it raises [IndexError]. *)
Theorem narrow_sample_corridor (st : planner) (x_path y_path : list R) :
  (length x_path = length y_path ->
   exists path_region,
     narrow_sample st x_path y_path = Ok path_region /\
     length path_region = (length x_path - 1)%nat /\
     forall k x1 y1 x2 y2,
       nth_error x_path k = Some x1 -> nth_error y_path k = Some y1 ->
       nth_error x_path (S k) = Some x2 -> nth_error y_path (S k) = Some y2 ->
       nth_error path_region k = Some (x1, y1, x2, y2, search_radius st / 2)) /\
  ((length y_path < length x_path)%nat -> (2 <= length x_path)%nat ->
   narrow_sample st x_path y_path = Raise IndexError).
Proof.
  split.
  - intros Hlen. destruct (narrow_sample_returns st x_path y_path Hlen) as [pr Hpr].
    exists pr. split; [exact Hpr |]. unfold narrow_sample in Hpr.
    apply narrow_sample_from_segments in Hpr.
    destruct Hpr as (segments & -> & Hcount & Hnth). cbn [app].
    split; [exact Hcount |].
    intros k x1 y1 x2 y2 H1 H2 H3 H4. apply Hnth; cbn [Nat.add]; try assumption.
    assert (S k < length x_path)%nat by (apply nth_error_Some; congruence). lia.
  - intros Hshort Hlong. unfold narrow_sample.
    apply narrow_sample_from_short; [exact Hshort | lia | lia].
Qed.

Lemma narrow_sample_corridor_witness :
  exists path_region,
    narrow_sample Fixtures.lot_planner [20; 20; 30] [5; 30; 30] = Ok path_region /\
    length path_region = 2%nat.
Proof.
  destruct (proj1 (narrow_sample_corridor Fixtures.lot_planner [20; 20; 30] [5; 30; 30])
                  eq_refl) as (pr & Hpr & Hlen & _).
  exists pr. split; [exact Hpr | exact Hlen].
Defined.

(** X15: the corridor test measures the distance to the whole straight line
    through a segment, not to the segment: every point of the line through
    a segment of positive length is accepted, however far beyond the
    endpoints it lies, for every margin that is not negative. *)
Theorem is_within_region_whole_line
    (x1 y1 x2 y2 margin t : R) (c : R) (p : option ref) (rest : list region) :
  x1 <> x2 \/ y1 <> y2 ->
  0 <= margin ->
  is_within_region (mkNode (x1 + t * (x2 - x1)) (y1 + t * (y2 - y1)) c p)
                   ((x1, y1, x2, y2, margin) :: rest)
  = Ok true.
Proof.
  intros Hne Hmargin. rewrite is_within_region_head_ok by exact Hne. cbn [x y].
  replace ((y2 - y1) * (x1 + t * (x2 - x1)) - (x2 - x1) * (y1 + t * (y2 - y1))
           + x2 * y1 - y2 * x1) with 0 by ring.
  rewrite Rabs_R0. unfold Rdiv. rewrite Rmult_0_l.
  apply Rleb_true in Hmargin. now rewrite Hmargin.
Qed.

Lemma is_within_region_whole_line_witness :
  is_within_region (mkNode (0 + 1000 * (1 - 0)) (0 + 1000 * (0 - 0)) 0 None)
                   [(0, 0, 1, 0, 5)]
  = Ok true.
Proof.
  apply (is_within_region_whole_line 0 0 1 0 5 1000 0 None []).
  - left. lra.
  - lra.
Defined.

End Corridor.

Section Sampling.
Import PyNum InformedTRRTStar.
Context {base : InformedRRTStar} {theta_star : ThetaStar}.

(** X16: with random numbers in [0, 1] and a lot of non-negative size, a
    node that [get_random_node] returns lies within the extent of the lot,
    has cost 0 and no parent, was admitted by the corridor test, and at
    least two random numbers were consumed. *)
Theorem get_random_node_in_lot (rs : nat -> R) (st : planner)
    (path_region : option (list region)) :
  (forall k, 0 <= rs k <= 1) ->
  (0 <= ParkingLot.lot_width (map_instance st))%Z ->
  (0 <= ParkingLot.lot_height (map_instance st))%Z ->
  forall fuel cur node cur',
    get_random_node fuel st path_region rs cur = Ok (node, cur') ->
    0 <= x node <= IZR (ParkingLot.lot_width (map_instance st)) /\
    0 <= y node <= IZR (ParkingLot.lot_height (map_instance st)) /\
    cost node = 0 /\ parent node = None /\
    region_admits node path_region = Ok true /\
    (cur + 2 <= cur')%nat.
Proof.
  intros Hrs Hw Hh. apply IZR_le in Hw, Hh.
  induction fuel as [| fuel IH]; intros cur node cur'; cbn [get_random_node];
    [discriminate |].
  unfold uniform.
  destruct (region_admits _ path_region) as [[|] | e |] eqn:Eadmit; cbn [bind];
    try discriminate.
  - intros H. inversion H; subst. cbn [x y cost parent new_Node].
    pose proof (Hrs cur) as H1. pose proof (Hrs (S cur)) as H2.
    repeat split; try nra; try lia. exact Eadmit.
  - intros H. apply IH in H. destruct H as ([? ?] & [? ?] & ? & ? & ? & ?).
    repeat split; try assumption; lia.
Qed.

Lemma get_random_node_empty_corridor (st : planner) (rs : nat -> R) :
  forall fuel cur, get_random_node fuel st (Some []) rs cur = Timeout.
Proof.
  induction fuel as [| fuel IH]; intros cur; cbn [get_random_node]; [reflexivity |].
  unfold uniform. cbn [region_admits is_within_region bind]. apply IH.
Qed.

(** X17: when the seed planner answers with a single point, the corridor is
    empty and no sample is ever admitted: with [c_best] still infinite and
    [max_iter] at least 1, [search_route] never returns. *)
Theorem search_route_single_point_seed (st : planner) (a b : R) :
  find_path (deref (mem st) (start st)) (deref (mem st) (goal st)) (map_instance st)
  = ([a], [b]) ->
  c_best st = PInf ->
  (1 <= max_iter st)%Z ->
  forall fuel rs, search_route fuel st rs = Timeout.
Proof.
  intros Hseed Hbest Hiter fuel rs. unfold search_route. rewrite Hseed.
  cbn [is_empty orb]. unfold narrow_sample. cbn [length Nat.sub narrow_sample_from bind].
  destruct (Z.to_nat (max_iter st)) as [| count] eqn:Ecount; [lia |].
  cbn [grow]. unfold iteration, sample. rewrite Hbest. cbn [XFloat.ltb].
  now rewrite get_random_node_empty_corridor.
Qed.

End Sampling.

Section SamplingOnTheLot.
Import PyNum InformedTRRTStar Fixtures.

Lemma get_random_node_in_lot_witness :
  0 <= x (new_Node (0 + (82 - 0) * (1 / 2)) (0 + (63 - 0) * (1 / 2)) 0) <= 82.
Proof.
  assert (get_random_node 1 lot_planner None (fun _ => 1 / 2) 0
          = Ok (new_Node (0 + (82 - 0) * (1 / 2)) (0 + (63 - 0) * (1 / 2)) 0, 2%nat))
    as Hrun by reflexivity.
  refine (proj1 (get_random_node_in_lot (fun _ => 1 / 2) lot_planner None
                   _ _ _ _ _ _ _ Hrun)).
  - intros k. cbv beta. lra.
  - vm_compute. discriminate.
  - vm_compute. discriminate.
Defined.

Lemma search_route_single_point_seed_witness :
  @search_route lot_base point_seed 1000 lot_planner (fun _ => 1 / 2) = Timeout.
Proof.
  apply (@search_route_single_point_seed lot_base point_seed lot_planner 20 5).
  - reflexivity.
  - reflexivity.
  - cbn. lia.
Defined.

End SamplingOnTheLot.

Section CheapestAccepted.

(** A loop that keeps the first of the cheapest accepted candidates, as the
    loops of [search_best_parent] and [optimize_control] do. *)
Variable A : Type.
Variable accepted : A -> bool.
Variable score : A -> R.

Lemma cheapest_from_some (l : list A) :
  forall b,
    accepted b = true ->
    exists b',
      fold_left (fun (acc : option A * xfloat) (a : A) =>
                   if accepted a then
                     if XFloat.ltb (Fin (score a)) (snd acc)
                     then (Some a, Fin (score a)) else acc
                   else acc)
                l (Some b, Fin (score b))
      = (Some b', Fin (score b')) /\
      (b' = b \/ In b' l) /\ accepted b' = true /\ score b' <= score b /\
      forall r, In r l -> accepted r = true -> score b' <= score r.
Proof.
  induction l as [| r l IH]; intros b Hb; cbn [fold_left].
  - exists b. repeat split; auto; try lra. intros r [].
  - destruct (accepted r) eqn:Er.
    + cbn [snd XFloat.ltb]. unfold PyNum.Rltb.
      destruct (Rlt_dec (score r) (score b)) as [Hlt | Hge].
      * destruct (IH r Er) as (b' & Hfold & Hin & Hfree & Hle & Hmin).
        exists b'. split; [exact Hfold |]. split; [| split; [exact Hfree | split]].
        -- destruct Hin as [-> | Hin]; right; [now left | now right].
        -- lra.
        -- intros r' [<- | Hr'] Hfr; [exact Hle | now apply Hmin].
      * destruct (IH b Hb) as (b' & Hfold & Hin & Hfree & Hle & Hmin).
        exists b'. split; [exact Hfold |]. split; [| split; [exact Hfree | split]].
        -- destruct Hin as [-> | Hin]; [now left | right; now right].
        -- exact Hle.
        -- intros r' [<- | Hr'] Hfr; [lra | now apply Hmin].
    + destruct (IH b Hb) as (b' & Hfold & Hin & Hfree & Hle & Hmin).
      exists b'. split; [exact Hfold |]. split; [| split; [exact Hfree | split]].
      * destruct Hin as [-> | Hin]; [now left | right; now right].
      * exact Hle.
      * intros r' [<- | Hr'] Hfr; [congruence | now apply Hmin].
Qed.

Lemma cheapest_from_none (l : list A) :
  (fold_left (fun (acc : option A * xfloat) (a : A) =>
                if accepted a then
                  if XFloat.ltb (Fin (score a)) (snd acc)
                  then (Some a, Fin (score a)) else acc
                else acc)
             l (None, PInf) = (None, PInf) /\
   forall r, In r l -> accepted r = false) \/
  (exists b,
     fold_left (fun (acc : option A * xfloat) (a : A) =>
                  if accepted a then
                    if XFloat.ltb (Fin (score a)) (snd acc)
                    then (Some a, Fin (score a)) else acc
                  else acc)
               l (None, PInf) = (Some b, Fin (score b)) /\
     In b l /\ accepted b = true /\
     forall r, In r l -> accepted r = true -> score b <= score r).
Proof.
  induction l as [| r l IH]; cbn [fold_left].
  - left. split; [reflexivity | intros r []].
  - destruct (accepted r) eqn:Er.
    + cbn [snd XFloat.ltb]. right.
      destruct (cheapest_from_some l r Er) as (b' & Hfold & Hin & Hfree & Hle & Hmin).
      exists b'. split; [exact Hfold |]. split; [| split; [exact Hfree |]].
      * destruct Hin as [-> | Hin]; [now left | now right].
      * intros r' [<- | Hr'] Hfr; [exact Hle | now apply Hmin].
    + destruct IH as [[Hfold Hall] | (b & Hfold & Hin & Hfree & Hmin)].
      * left. split; [exact Hfold |]. intros r' [<- | Hr']; [exact Er | now apply Hall].
      * right. exists b. split; [exact Hfold |]. split; [now right | split; [exact Hfree |]].
        intros r' [<- | Hr'] Hfr; [congruence | now apply Hmin].
Qed.

End CheapestAccepted.

Section BestParent.
Import PyNum InformedTRRTStar.
Context {base : InformedRRTStar}.

(** X18: [search_best_parent] returns [None] exactly when no neighbour can
    be joined to the new node by a collision-free segment; otherwise it
    returns a neighbour that can, and whose cost plus distance to the new
    node is the smallest among those: the term [1.5 * heuristic], equal for
    all candidates, does not change the choice. *)
Theorem search_best_parent_optimal (st : planner) (new_node : Node) (near_nodes : list ref) :
  (search_best_parent st new_node near_nodes = None <->
   forall r, In r near_nodes ->
     is_collision_free st (deref (mem st) r) new_node = false) /\
  (forall b,
     search_best_parent st new_node near_nodes = Some b ->
     In b near_nodes /\
     is_collision_free st (deref (mem st) b) new_node = true /\
     forall r, In r near_nodes ->
       is_collision_free st (deref (mem st) r) new_node = true ->
       cost (deref (mem st) b)
       + hypot (x new_node - x (deref (mem st) b)) (y new_node - y (deref (mem st) b))
       <= cost (deref (mem st) r)
          + hypot (x new_node - x (deref (mem st) r)) (y new_node - y (deref (mem st) r))).
Proof.
  unfold search_best_parent.
  destruct (cheapest_from_none ref
              (fun r => is_collision_free st (deref (mem st) r) new_node)
              (fun r => cost (deref (mem st) r)
                        + hypot (x new_node - x (deref (mem st) r))
                                (y new_node - y (deref (mem st) r))
                        + 15 / 10 * heuristic new_node (deref (mem st) (goal st)))
              near_nodes)
    as [[Hfold Hall] | (b & Hfold & Hin & Hfree & Hmin)]; cbv beta in *;
    rewrite Hfold; cbn [fst].
  - split; [split; [intros _; exact Hall | reflexivity] | discriminate].
  - split.
    + split; [discriminate |]. intros Hall. specialize (Hall b Hin). congruence.
    + intros b' Hb'. inversion Hb'; subst b'. split; [exact Hin | split; [exact Hfree |]].
      intros r Hr Hfr. specialize (Hmin r Hr Hfr). lra.
Qed.

End BestParent.

Section SmoothedHops.
Import PyNum InformedTRRTStar SmoothedPath.
Context {base : InformedRRTStar}.

Lemma range_down_cons (hi lo : nat) :
  (lo < S hi)%nat -> range_down (S hi) lo = S hi :: range_down hi lo.
Proof.
  intros Hlt. unfold range_down.
  replace (S hi - lo)%nat with (S (hi - lo)) by lia.
  rewrite seq_S, rev_app_distr. cbn [rev app]. f_equal. lia.
Qed.

Lemma range_down_nil (hi lo : nat) : (hi <= lo)%nat -> range_down hi lo = [].
Proof.
  intros Hle. unfold range_down. replace (hi - lo)%nat with 0%nat by lia. reflexivity.
Qed.

(** The scan of [smooth_path] goes down from the end of the path: where it
    breaks is the furthest index that can be reached. *)
Lemma smooth_scan_furthest (st : planner) (path_x path_y : list R) (i j : nat) :
  forall hi,
    smooth_scan st path_x path_y i (range_down hi i) = Ok (Some j) ->
    (i < j <= hi)%nat /\
    exists xi yi xj yj,
      nth_error path_x i = Some xi /\ nth_error path_y i = Some yi /\
      nth_error path_x j = Some xj /\ nth_error path_y j = Some yj /\
      is_collision_free st (new_Node xi yi 0) (new_Node xj yj 0) = true /\
      forall j' xj' yj',
        (j < j' <= hi)%nat ->
        nth_error path_x j' = Some xj' -> nth_error path_y j' = Some yj' ->
        is_collision_free st (new_Node xi yi 0) (new_Node xj' yj' 0) = false.
Proof.
  induction hi as [| hi IH].
  - rewrite range_down_nil by lia. discriminate.
  - destruct (Nat.le_gt_cases (S hi) i) as [Hle | Hlt].
    { rewrite range_down_nil by lia. discriminate. }
    rewrite range_down_cons by lia. cbn [smooth_scan]. unfold getitem.
    destruct (nth_error path_x i) as [xi |] eqn:Exi; cbn [bind]; [| discriminate].
    destruct (nth_error path_y i) as [yi |] eqn:Eyi; cbn [bind]; [| discriminate].
    destruct (nth_error path_x (S hi)) as [xh |] eqn:Exh; cbn [bind]; [| discriminate].
    destruct (nth_error path_y (S hi)) as [yh |] eqn:Eyh; cbn [bind]; [| discriminate].
    destruct (is_collision_free st (new_Node xi yi 0) (new_Node xh yh 0)) eqn:Efree.
    + intros H. inversion H; subst j. split; [lia |].
      exists xi, yi, xh, yh. repeat split; try assumption. intros; lia.
    + intros H. apply IH in H.
      destruct H as (Hj & xi' & yi' & xj & yj & Hxi & Hyi & Hxj & Hyj & Hfree & Hfar).
      split; [lia |]. exists xi', yi', xj, yj. repeat split; try assumption.
      intros j' xj' yj' Hj' Hx' Hy'.
      destruct (Nat.eq_dec j' (S hi)) as [-> | Hne].
      * rewrite Exh in Hx'. rewrite Eyh in Hy'. inversion Hx'; inversion Hy'; subst.
        inversion Hxi; inversion Hyi; subst. exact Efree.
      * apply (Hfar j'); [lia | assumption | assumption].
Qed.

Lemma smooth_loop_hops (st : planner) (path_x path_y : list R) (fuel : nat) :
  forall i smooth_x smooth_y rx ry,
    smooth_loop fuel st path_x path_y i smooth_x smooth_y = Ok (rx, ry) ->
    exists js,
      hops st path_x path_y i js /\
      rx = smooth_x ++ map (fun j => nth j path_x 0) js /\
      ry = smooth_y ++ map (fun j => nth j path_y 0) js.
Proof.
  induction fuel as [| fuel IH]; intros i sx sy rx ry; cbn [smooth_loop]; [discriminate |].
  destruct (Nat.ltb_spec i (length path_x - 1)) as [Hlt | Hge].
  - destruct (smooth_scan st path_x path_y i (range_down (length path_x - 1) i))
      as [[j |] | e |] eqn:Escan; cbn [bind]; try discriminate.
    + apply smooth_scan_furthest in Escan.
      destruct Escan as (Hj & xi & yi & xj & yj & Hxi & Hyi & Hxj & Hyj & Hfree & Hfar).
      unfold getitem. rewrite Hxj, Hyj. cbn [bind]. intros H. apply IH in H.
      destruct H as (js & Hhops & -> & ->).
      exists (j :: js). split; [| split].
      * eapply hops_step; eauto.
      * rewrite <- app_assoc. cbn [map app]. now rewrite (nth_error_nth _ _ _ Hxj).
      * rewrite <- app_assoc. cbn [map app]. now rewrite (nth_error_nth _ _ _ Hyj).
    + intros H. apply IH in H. destruct H as (js & Hhops & -> & ->).
      exists js. repeat split; assumption.
  - intros H. inversion H; subst. exists []. rewrite !app_nil_r.
    split; [apply hops_end; lia | split; reflexivity].
Qed.

Lemma hops_last (st : planner) (path_x path_y : list R) (i : nat) (js : list nat) :
  hops st path_x path_y i js ->
  forall d, (i <= length path_x - 1)%nat ->
    last (i :: js) d = (length path_x - 1)%nat.
Proof.
  induction 1 as [i Hend | i j js xi yi xj yj Hij Hxi Hyi Hxj Hyj Hfree Hfar Hrest IH];
    intros d Hi.
  - cbn [last]. lia.
  - change (last (j :: js) d = (length path_x - 1)%nat). apply IH. lia.
Qed.

(** X19: whenever [smooth_path] returns, the smoothed path is made of the
    input points at indices [0 = j0 < j1 < ... < jk], the last of which is
    the last index of the path; each hop from one of these indices to the
    next passed [is_collision_free], and it goes to the furthest index that
    does. *)
Theorem smooth_path_hops (fuel : nat) (st : planner) (path_x path_y smooth_x smooth_y : list R) :
  smooth_path fuel st path_x path_y = Ok (smooth_x, smooth_y) ->
  exists js,
    hops st path_x path_y 0 js /\
    last (0%nat :: js) 0%nat = (length path_x - 1)%nat /\
    smooth_x = map (fun j => nth j path_x 0) (0%nat :: js) /\
    smooth_y = map (fun j => nth j path_y 0) (0%nat :: js).
Proof.
  unfold smooth_path, getitem.
  destruct (nth_error path_x 0) as [x0 |] eqn:Ex; cbn [bind]; [| discriminate].
  destruct (nth_error path_y 0) as [y0 |] eqn:Ey; cbn [bind]; [| discriminate].
  intros H. apply smooth_loop_hops in H. destruct H as (js & Hhops & -> & ->).
  exists js. split; [exact Hhops |]. split; [apply (hops_last st path_x path_y); [exact Hhops | lia] |].
  cbn [map app]. rewrite (nth_error_nth _ _ _ Ex), (nth_error_nth _ _ _ Ey). split; reflexivity.
Qed.

End SmoothedHops.

Section SmoothedHopsOnTheLot.
Import PyNum InformedTRRTStar SmoothedPath Fixtures.

Lemma lot_segment_20_5_to_20_10_free :
  segment_free lot_planner (new_Node 20 5 0) (new_Node 20 10 0) = true.
Proof.
  unfold segment_free. cbn [x y new_Node]. rewrite !round_IZR. vm_compute. reflexivity.
Qed.

Lemma lot_two_point_path_smoothed :
  @smooth_path lot_base 2 lot_planner [20; 20] [5; 10] = Ok ([20; 20], [5; 10]).
Proof.
  unfold smooth_path. cbn [getitem nth_error bind smooth_loop length Nat.sub Nat.ltb Nat.leb].
  change (range_down 1 0) with [1%nat]. cbn [smooth_scan getitem nth_error bind].
  change (@is_collision_free lot_base) with segment_free.
  rewrite lot_segment_20_5_to_20_10_free. reflexivity.
Qed.

Lemma smooth_path_hops_witness :
  exists js,
    hops (base := lot_base) lot_planner [20; 20] [5; 10] 0 js /\
    last (0%nat :: js) 0%nat = 1%nat /\
    [20; 20] = map (fun j => nth j [20; 20] 0) (0%nat :: js) /\
    [5; 10] = map (fun j => nth j [5; 10] 0) (0%nat :: js).
Proof.
  exact (@smooth_path_hops lot_base 2 lot_planner [20; 20] [5; 10] [20; 20] [5; 10]
           lot_two_point_path_smoothed).
Defined.

Lemma smooth_path_returns_on_connected_path_witness :
  exists smooth_x smooth_y,
    @smooth_path lot_base 2 lot_planner [20; 20] [5; 10] = Ok (smooth_x, smooth_y).
Proof.
  apply (@smooth_path_returns_on_connected_path lot_base lot_planner [20; 20] [5; 10]).
  - discriminate.
  - reflexivity.
  - intros i xi yi xj yj Hxi Hyi Hxj Hyj.
    destruct i as [| [| i]]; cbn in Hxi, Hyi, Hxj, Hyj; try discriminate.
    inversion Hxi; inversion Hyi; inversion Hxj; inversion Hyj; subst.
    exact lot_segment_20_5_to_20_10_free.
Defined.

End SmoothedHopsOnTheLot.

Section TreeGrowth.
Import PyNum InformedTRRTStar.
Context {base : InformedRRTStar}.




(** X22: while [c_best] is infinite, a [search_radius] of zero makes the
    neighbour radius [0 * inf], which is not a number, and a negative one
    makes it minus infinity: in both cases no tree node is collected as a
    neighbour. *)
Theorem near_nodes_none_without_radius (st : planner) (new_node : Node) :
  c_best st = PInf ->
  0 <= c_min st ->
  search_radius st <= 0 ->
  near_nodes st new_node = [].
Proof.
  intros Hbest Hmin Hradius. unfold near_nodes, adaptive_radius. rewrite Hbest.
  cbn [XFloat.np_div]. apply Rleb_true in Hmin. rewrite Hmin.
  cbn [XFloat.signed_inf XFloat.mul].
  assert (forall l : list ref, filter (fun _ => false) l = []) as Hnone
    by (induction l; cbn; auto).
  unfold Reqb. destruct (Req_dec_T (search_radius st) 0) as [Hzero | Hneg].
  - apply Hnone.
  - unfold Rltb. destruct (Rlt_dec 0 (search_radius st)); [lra |]. apply Hnone.
Qed.

End TreeGrowth.

Section TreeGrowthOnTheLot.
Import PyNum InformedTRRTStar Fixtures.

Lemma near_nodes_none_without_radius_witness :
  near_nodes (@init lot_base (Geometry.mkPose 20 5 0) (Geometry.mkPose 20 30 0)
                    ParkingLot.init 300 0)
             (new_Node 20 5 0) = [].
Proof.
  apply near_nodes_none_without_radius.
  - reflexivity.
  - cbn. apply hypot_nonneg.
  - cbn. lra.
Defined.

End TreeGrowthOnTheLot.

Section TreeGrowthRun.
Import PyNum InformedTRRTStar Fixtures.



End TreeGrowthRun.

Section BasicController.
Import PyNum MPCBasic.


Lemma sum_sq_from_ge (a : list R) :
  forall c, c <= fold_left (fun acc v => acc + v ^ 2) a c.
Proof.
  induction a as [| v a IH]; intros c; cbn [fold_left]; [lra |].
  specialize (IH (c + v ^ 2)). pose proof (pow2_ge_0 v). lra.
Qed.

Lemma basic_compute_cost_from_total (ref_trajectory : list (list R)) :
  Forall (fun row => length row = 4%nat) ref_trajectory ->
  forall predicted_states c,
    exists c', compute_cost_from c predicted_states ref_trajectory = Ok c' /\ c <= c'.
Proof.
  induction 1 as [| row rows Hrow Hrows IH]; intros ps c.
  - destruct ps; cbn [compute_cost_from]; exists c; split; auto; lra.
  - destruct ps as [| [[[sx sy] stheta] sv] ps]; cbn [compute_cost_from].
    + exists c. split; auto; lra.
    + unfold Numpy.sub. cbn [to_array length]. rewrite Hrow, Nat.eqb_refl. cbn [bind].
      destruct (IH ps (c + Numpy.sum_sq (Numpy.zip_with Rminus [sx; sy; stheta; sv] row)))
        as (c' & Hc' & Hle).
      exists c'. split; [exact Hc' |].
      pose proof (sum_sq_from_ge (Numpy.zip_with Rminus [sx; sy; stheta; sv] row) 0) as H0.
      unfold Numpy.sum_sq in *. lra.
Qed.

(** X24: on a reference whose rows have the four columns of a state,
    [compute_cost] returns, and the cost is not negative. *)
Theorem basic_compute_cost_nonneg (predicted_states : list state)
    (ref_trajectory : list (list R)) :
  Forall (fun row => length row = 4%nat) ref_trajectory ->
  exists cost, compute_cost predicted_states ref_trajectory = Ok cost /\ 0 <= cost.
Proof.
  intros Hrows. exact (basic_compute_cost_from_total ref_trajectory Hrows predicted_states 0).
Qed.

(** Where [compute_cost] returns on every grid cell, the nested loops of
    [optimize_control] are a plain fold. *)
Lemma basic_consider_fold (self : MPCController) (current_state : state)
    (ref_trajectory : list (list R)) (score : control -> R) (l : list control) :
  (forall c, compute_cost (predicted_states self current_state ref_trajectory c)
                          ref_trajectory = Ok (score c)) ->
  forall acc,
    foldM (consider self current_state ref_trajectory) l acc
    = Ok (fold_left
            (fun (acc : option control * xfloat) (c : control) =>
               if forallb (is_collision_free self)
                          (predicted_states self current_state ref_trajectory c)
               then if XFloat.ltb (Fin (score c)) (snd acc)
                    then (Some c, Fin (score c)) else acc
               else acc)
            l acc).
Proof.
  intros Hscore. induction l as [| c l IH]; intros acc; cbn [foldM fold_left]; [reflexivity |].
  unfold consider at 1. rewrite Hscore. cbn [bind].
  destruct (forallb _ _); cbn [bind]; [destruct (XFloat.ltb _ _); cbn [bind] |]; apply IH.
Qed.

Lemma basic_score_exists (self : MPCController) (current_state : state)
    (ref_trajectory : list (list R)) :
  Forall (fun row => length row = 4%nat) ref_trajectory ->
  exists score : control -> R,
    (forall c, compute_cost (predicted_states self current_state ref_trajectory c)
                            ref_trajectory = Ok (score c)) /\
    forall c, 0 <= score c.
Proof.
  intros Hrows.
  exists (fun c => match compute_cost (predicted_states self current_state ref_trajectory c)
                                      ref_trajectory with
                   | Ok v => v
                   | _ => 0
                   end).
  split; intros c;
    destruct (basic_compute_cost_from_total ref_trajectory Hrows
                (predicted_states self current_state ref_trajectory c) 0)
      as (v & Hv & Hle); unfold compute_cost; now rewrite Hv.
Qed.

(** X26: on a reference whose rows have four columns, [optimize_control]
    returns a control.  Either no grid cell has a collision-free rollout
    and the control is the default [(0.1, 0)], or the control is a grid
    cell whose rollout is collision-free and whose cost is the least among
    the grid cells with a collision-free rollout. *)
Theorem basic_optimize_control_cheapest (self : MPCController) (current_state : state)
    (ref_trajectory : list (list R)) :
  Forall (fun row => length row = 4%nat) ref_trajectory ->
  exists best,
    optimize_control self current_state ref_trajectory = Ok (Some best) /\
    ((best = (1 / 10, 0) /\
      forall c, In c control_grid ->
        forallb (is_collision_free self)
                (predicted_states self current_state ref_trajectory c) = false)
     \/
     (In best control_grid /\
      forallb (is_collision_free self)
              (predicted_states self current_state ref_trajectory best) = true /\
      forall c, In c control_grid ->
        forallb (is_collision_free self)
                (predicted_states self current_state ref_trajectory c) = true ->
        exists cost_best cost_c,
          compute_cost (predicted_states self current_state ref_trajectory best)
                       ref_trajectory = Ok cost_best /\
          compute_cost (predicted_states self current_state ref_trajectory c)
                       ref_trajectory = Ok cost_c /\
          cost_best <= cost_c)).
Proof.
  intros Hrows.
  destruct (basic_score_exists self current_state ref_trajectory Hrows)
    as (score & Hscore & _).
  unfold optimize_control.
  rewrite (basic_consider_fold self current_state ref_trajectory score control_grid Hscore).
  cbn [bind].
  destruct (cheapest_from_none control
              (fun c => forallb (is_collision_free self)
                                (predicted_states self current_state ref_trajectory c))
              score control_grid)
    as [[Hfold Hall] | (b & Hfold & Hin & Hfree & Hmin)]; rewrite Hfold.
  - exists (1 / 10, 0). split; [reflexivity |]. left. split; [reflexivity | exact Hall].
  - exists b. split; [reflexivity |]. right. split; [exact Hin |]. split; [exact Hfree |].
    intros c Hc Hcfree. exists (score b), (score c).
    split; [apply Hscore |]. split; [apply Hscore |]. now apply Hmin.
Qed.

Lemma basic_grid_head :
  exists rest, control_grid = (-1, - PI / 6) :: rest.
Proof.
  unfold control_grid, Numpy.linspace. cbn [seq map flat_map app].
  eexists. f_equal. f_equal; cbn [INR]; lra.
Qed.

Lemma basic_nothing_predicted (self : MPCController) (current_state : state)
    (ref_trajectory : list (list R)) (c : control) :
  (horizon self <= 0)%Z \/ ref_trajectory = [] ->
  predicted_states self current_state ref_trajectory c = [].
Proof.
  unfold predicted_states. intros [Hh | ->].
  - replace (Z.to_nat (horizon self)) with 0%nat by lia. cbn [rollout length].
    now destruct (length ref_trajectory <? 0)%nat; [destruct (length ref_trajectory) |].
  - cbn [length]. destruct (0 <? _)%nat eqn:E; [reflexivity |].
    apply Nat.ltb_ge in E. now destruct (rollout _ _ _ _); [| cbn in E; lia].
Qed.

(** X27: with a horizon of zero or less, or with an empty reference, no
    state is predicted, every rollout passes the collision test with cost
    zero, and [optimize_control] answers with the first cell of the grid:
    full deceleration and full steering to one side, not the default. *)
Theorem basic_optimize_control_nothing_predicted (self : MPCController)
    (current_state : state) (ref_trajectory : list (list R)) :
  (horizon self <= 0)%Z \/ ref_trajectory = [] ->
  optimize_control self current_state ref_trajectory = Ok (Some (-1, - PI / 6)).
Proof.
  intros Hnone. unfold optimize_control.
  destruct basic_grid_head as (rest & ->). cbn [foldM].
  assert (forall acc c,
            consider self current_state ref_trajectory acc c
            = if XFloat.ltb (Fin 0) (snd acc) then Ok (Some c, Fin 0) else Ok acc)
    as Hconsider.
  { intros acc c. unfold consider.
    rewrite (basic_nothing_predicted self current_state ref_trajectory c Hnone).
    cbn [forallb]. unfold compute_cost.
    now destruct ref_trajectory; cbn [compute_cost_from bind]. }
  rewrite Hconsider. cbn [snd XFloat.ltb bind].
  rewrite foldM_unchanged; [reflexivity |].
  intros c _. rewrite Hconsider. cbn [snd XFloat.ltb]. unfold Rltb.
  destruct (Rlt_dec 0 0); [lra | reflexivity].
Qed.

End BasicController.

Section BasicControllerOnTheLot.
Import PyNum MPCBasic Fixtures.

Lemma basic_compute_cost_nonneg_witness :
  exists cost,
    compute_cost [(1, 2, 0, 0)] [[1; 2; 0; 0]] = Ok cost /\ 0 <= cost.
Proof.
  apply basic_compute_cost_nonneg. repeat constructor.
Defined.

Lemma basic_optimize_control_cheapest_witness :
  exists best,
    optimize_control basic_controller (20, 5, 0, 0) [[20; 5; 0; 0]; [20; 6; 0; 0]]
    = Ok (Some best).
Proof.
  destruct (basic_optimize_control_cheapest basic_controller (20, 5, 0, 0)
              [[20; 5; 0; 0]; [20; 6; 0; 0]])
    as (best & Hbest & _).
  - repeat constructor.
  - exists best. exact Hbest.
Defined.

Lemma basic_optimize_control_nothing_predicted_witness :
  optimize_control basic_controller (20, 5, 0, 0) [] = Ok (Some (-1, - PI / 6)).
Proof.
  apply basic_optimize_control_nothing_predicted. right. reflexivity.
Defined.

End BasicControllerOnTheLot.

Section BasicFollow.
Import PyNum MPCBasic MPCBasicRun.
Context {utils : MPCController.Utils}.

Lemma basic_optimize_control_total (self : MPCController) (current_state : state)
    (ref_trajectory : list (list R)) :
  Forall (fun row => length row = 4%nat) ref_trajectory ->
  exists c, optimize_control self current_state ref_trajectory = Ok (Some c).
Proof.
  intros Hrows.
  destruct (basic_score_exists self current_state ref_trajectory Hrows)
    as (score & Hscore & _).
  unfold optimize_control.
  rewrite (basic_consider_fold self current_state ref_trajectory score control_grid Hscore).
  cbn [bind]. destruct (fold_left _ _ _) as [[c |] min_cost]; eauto.
Qed.

Lemma slice_rows {A : Type} (P : A -> Prop) (l : list A) (i j : Z) :
  Forall P l -> Forall P (MPCController.slice l i j).
Proof.
  intros Hl. unfold MPCController.slice.
  set (n := Z.to_nat _). set (k := Z.to_nat _).
  rewrite <- (firstn_skipn k l) in Hl. apply Forall_app in Hl as [_ Hl].
  rewrite <- (firstn_skipn n (skipn k l)) in Hl. now apply Forall_app in Hl as [Hl _].
Qed.

Lemma basic_follow_loop_total (self : MPCController) (ref_trajectory : list (list R)) :
  Forall (fun row => length row = 4%nat) ref_trajectory ->
  ref_trajectory <> [] ->
  forall indices current_state trajectory,
    exists added,
      follow_loop self ref_trajectory indices current_state trajectory
      = Ok (trajectory ++ added) /\
      (length added <= length indices)%nat /\
      forall s1, hd_error added = Some s1 ->
        exists c, s1 = predict self current_state c.
Proof.
  intros Hrows Hne.
  assert (exists last_row,
            getitem ref_trajectory (length ref_trajectory - 1) = Ok last_row /\
            length last_row = 4%nat) as (last_row & Hlast & Hlen).
  { unfold getitem.
    destruct (nth_error ref_trajectory (length ref_trajectory - 1)) as [row |] eqn:E.
    - exists row. split; [reflexivity |]. apply nth_error_In in E.
      rewrite Forall_forall in Hrows. now apply Hrows.
    - apply nth_error_None in E. destruct ref_trajectory; [contradiction | cbn in E; lia]. }
  induction indices as [| i rest IH]; intros current_state trajectory.
  - exists []. cbn [follow_loop length hd_error]. rewrite app_nil_r.
    repeat split; [lia | discriminate].
  - cbn [follow_loop].
    destruct (basic_optimize_control_total self current_state
                (MPCController.slice ref_trajectory (Z.of_nat i)
                                     (Z.of_nat i + horizon self))
                (slice_rows _ _ _ _ Hrows)) as (c & Hc).
    rewrite Hc. cbn [bind]. rewrite Hlast. cbn [bind].
    destruct (apply_control self current_state c) as [[[sx sy] stheta] sv] eqn:Enext.
    destruct last_row as [| a [| b [| d [| e [| ? ?]]]]]; cbn [length] in Hlen; try lia.
    cbn [firstn]. unfold Numpy.sub. cbn [length Nat.eqb bind].
    assert (exists g, (sx, sy, stheta, sv) = predict self current_state g) as Hstep
      by (exists c; now rewrite <- Enext).
    destruct (Rltb _ _).
    + exists [(sx, sy, stheta, sv)]. repeat split; [cbn [length]; lia |].
      intros s1 H. inversion H; subst. exact Hstep.
    + destruct (IH (sx, sy, stheta, sv) (trajectory ++ [(sx, sy, stheta, sv)]))
        as (added & Hrun & Hlen' & _).
      exists ((sx, sy, stheta, sv) :: added). split; [| split].
      * etransitivity; [exact Hrun |]. now rewrite <- app_assoc.
      * cbn [length]. lia.
      * intros s1 H. inversion H; subst. exact Hstep.
Qed.

(** X25: on a reference of at least two rows, each with four columns,
    [follow_trajectory] returns.  The trajectory starts with the start
    state, at speed zero, and has at most one more state per index of
    [range(len(ref_trajectory) - horizon)] (none when the reference is
    not longer than the horizon).  A second state, when there is one, is
    at the start position with the start heading: the first control only
    changes the speed. *)
Theorem basic_follow_trajectory_returns (self : MPCController)
    (start_pose : Geometry.Pose) (ref_trajectory : list (list R)) :
  Forall (fun row => length row = 4%nat) ref_trajectory ->
  (2 <= length ref_trajectory)%nat ->
  exists r10 r11 later,
    follow_trajectory self start_pose ref_trajectory
    = Ok (initial_state start_pose r10 r11 :: later) /\
    (length later
     <= Z.to_nat (Z.of_nat (length ref_trajectory) - horizon self))%nat /\
    forall s1, hd_error later = Some s1 ->
      exists v1,
        s1 = (Geometry.x start_pose, Geometry.y start_pose,
              MPCController.calculate_angle (Geometry.x start_pose)
                (Geometry.y start_pose) r10 r11,
              v1).
Proof.
  intros Hrows Hlen. unfold follow_trajectory.
  destruct ref_trajectory as [| row0 [| row1 rows]]; cbn [length] in Hlen; try lia.
  cbn [getitem nth_error bind].
  assert (length row1 = 4%nat) as Hrow1.
  { rewrite Forall_forall in Hrows. apply Hrows. right. now left. }
  destruct row1 as [| r10 [| r11 row1]]; cbn [length] in Hrow1; try lia.
  cbn [nth_error bind].
  destruct (basic_follow_loop_total self (row0 :: (r10 :: r11 :: row1) :: rows) Hrows
              ltac:(discriminate)
              (seq 0 (Z.to_nat (Z.of_nat (length (row0 :: (r10 :: r11 :: row1) :: rows))
                                - horizon self)))
              (initial_state start_pose r10 r11) [initial_state start_pose r10 r11])
    as (added & Hrun & Hadded & Hfirst).
  exists r10, r11, added. split; [exact Hrun |]. split.
  - now rewrite length_seq in Hadded.
  - intros s1 Hs1. destruct (Hfirst s1 Hs1) as ([v_ref delta_ref] & ->).
    unfold initial_state. cbn [predict]. exists (0 + v_ref * dt self).
    apply f_equal2; [apply f_equal2; [apply f_equal2 |] |];
      try reflexivity; unfold Rdiv; ring.
Qed.

End BasicFollow.

Section BasicFollowOnTheLot.
Import PyNum MPCBasic MPCBasicRun Fixtures.

Lemma basic_follow_trajectory_returns_witness :
  exists r10 r11 later,
    follow_trajectory (utils := lot_utils) basic_controller (Geometry.mkPose 20 5 0)
                      [[20; 5; 0; 0]; [20; 6; 0; 0]]
    = Ok (initial_state (utils := lot_utils) (Geometry.mkPose 20 5 0) r10 r11 :: later) /\
    (length later <= Z.to_nat (Z.of_nat 2 - 10))%nat /\
    forall s1, hd_error later = Some s1 ->
      exists v1,
        s1 = (20, 5, MPCController.calculate_angle (Utils := lot_utils) 20 5 r10 r11, v1).
Proof.
  apply (basic_follow_trajectory_returns (utils := lot_utils) basic_controller
           (Geometry.mkPose 20 5 0) [[20; 5; 0; 0]; [20; 6; 0; 0]]).
  - repeat constructor.
  - cbn [length]. lia.
Defined.

End BasicFollowOnTheLot.

Section ReferenceSegment.
Import PyNum MPCController.

Lemma slice_inside {A : Type} (l : list A) (i j : Z) :
  (0 <= i <= j)%Z -> (j <= Z.of_nat (length l))%Z ->
  slice l i j = firstn (Z.to_nat (j - i)) (skipn (Z.to_nat i) l) /\
  length (slice l i j) = Z.to_nat (j - i) /\
  forall k, (k < Z.to_nat (j - i))%nat ->
    nth_error (slice l i j) k = nth_error l (Z.to_nat i + k).
Proof.
  intros Hij Hj. unfold slice, slice_bound.
  destruct (i <? 0)%Z eqn:Ei; [apply Z.ltb_lt in Ei; lia |].
  destruct (j <? 0)%Z eqn:Ej; [apply Z.ltb_lt in Ej; lia |].
  rewrite !Z.min_l by lia. split; [reflexivity |]. split.
  - rewrite length_firstn, length_skipn. lia.
  - intros k Hk. rewrite nth_error_firstn.
    destruct (k <? Z.to_nat (j - i))%nat eqn:E; [| apply Nat.ltb_ge in E; lia].
    apply nth_error_skipn.
Qed.

Lemma rev_head_is_last {A : Type} (l : list A) (a : A) (t : list A) :
  rev l = a :: t -> nth_error l (length l - 1) = Some a.
Proof.
  intros H. apply (f_equal (@rev A)) in H. rewrite rev_involutive in H. subst l.
  cbn [rev]. rewrite length_app. cbn [length].
  rewrite nth_error_app2 by lia.
  replace (length (rev t) + 1 - 1 - length (rev t))%nat with 0%nat by lia. reflexivity.
Qed.

(** X28: with a horizon of at least one and an index inside the
    reference, the segment handed to the optimizer has exactly [horizon]
    rows: row [k] of the segment is row [ref_index + k] of the reference,
    or its last row once the reference is used up. *)
Theorem ref_segment_at_rows (self : MPCController) (ref_trajectory : list (list R))
    (ref_index : Z) :
  (1 <= horizon self)%Z ->
  (0 <= ref_index <= Z.of_nat (length ref_trajectory) - 1)%Z ->
  exists ref_segment,
    ref_segment_at self ref_trajectory ref_index = Ok ref_segment /\
    Z.of_nat (length ref_segment) = horizon self /\
    forall k, (k < length ref_segment)%nat ->
      nth_error ref_segment k
      = nth_error ref_trajectory
          (Z.to_nat (Z.min (ref_index + Z.of_nat k)
                           (Z.of_nat (length ref_trajectory) - 1))).
Proof.
  intros Hh Hidx. unfold ref_segment_at.
  set (len := Z.of_nat (length ref_trajectory)) in *.
  replace (len - 1 + 1)%Z with len by lia.
  set (stop := Z.min (ref_index + horizon self) len).
  destruct (slice_inside ref_trajectory ref_index stop) as (_ & Hlen & Hnth);
    [unfold stop; lia | unfold stop, len; lia |].
  set (ref_segment := slice ref_trajectory ref_index stop) in *.
  destruct (Z.of_nat (length ref_segment) <? horizon self)%Z eqn:Eshort.
  - apply Z.ltb_lt in Eshort.
    destruct (rev ref_segment) as [| last_point t] eqn:Erev.
    + apply (f_equal (@length (list R))) in Erev. rewrite length_rev, Hlen in Erev.
      cbn [length] in Erev. unfold stop in Erev. lia.
    + apply rev_head_is_last in Erev.
      assert (stop = len) as Hstop by (unfold stop in *; lia).
      rewrite Hnth in Erev by lia.
      eexists. split; [reflexivity |]. split.
      * rewrite length_app, repeat_length. lia.
      * intros k Hk. rewrite length_app, repeat_length in Hk.
        destruct (Nat.lt_ge_cases k (length ref_segment)) as [Hin | Hout].
        -- rewrite nth_error_app1 by exact Hin. rewrite Hnth by lia.
           f_equal. lia.
        -- rewrite nth_error_app2 by exact Hout.
           rewrite nth_error_repeat by lia. rewrite <- Erev. f_equal.
           unfold len in *. lia.
  - apply Z.ltb_ge in Eshort.
    exists ref_segment. split; [reflexivity |]. split.
    + rewrite Hlen in *. unfold stop in *. lia.
    + intros k Hk. rewrite Hnth by lia. f_equal. rewrite Hlen in Hk.
      unfold stop, len in *. lia.
Qed.

End ReferenceSegment.

Section ReferenceSegmentOnTheLot.
Import PyNum MPCController Fixtures.

Lemma ref_segment_at_rows_witness :
  exists ref_segment,
    ref_segment_at lot_controller [[0; 0; 0; 0]; [1; 0; 0; 0]; [2; 0; 0; 0]] 1
    = Ok ref_segment /\
    Z.of_nat (length ref_segment) = 10%Z /\
    forall k, (k < length ref_segment)%nat ->
      nth_error ref_segment k
      = nth_error [[0; 0; 0; 0]; [1; 0; 0; 0]; [2; 0; 0; 0]]
          (Z.to_nat (Z.min (1 + Z.of_nat k) (Z.of_nat 3 - 1))).
Proof.
  apply (ref_segment_at_rows lot_controller [[0; 0; 0; 0]; [1; 0; 0; 0]; [2; 0; 0; 0]] 1).
  - cbn. lia.
  - cbn [length]. lia.
Defined.

End ReferenceSegmentOnTheLot.

Section NearestReference.
Import PyNum MPCController.

Lemma foldM_collect_map {A B : Type} (f : A -> outcome B) (g : A -> B) (l : list A) :
  (forall a, In a l -> f a = Ok (g a)) ->
  forall acc,
    foldM (fun acc a => b <- f a ;; Ok (acc ++ [b])) l acc = Ok (acc ++ map g l).
Proof.
  induction l as [| a l IH]; intros Hf acc; cbn [foldM map].
  - now rewrite app_nil_r.
  - rewrite (Hf a (or_introl eq_refl)). cbn [bind].
    rewrite IH by (intros a' Ha'; apply Hf; now right).
    now rewrite <- app_assoc.
Qed.

Lemma argmin_from_spec (l : list R) :
  forall best_i best i,
    (Numpy.argmin_from best_i best i l = best_i /\ Forall (fun d => best <= d) l) \/
    (exists p d,
       Numpy.argmin_from best_i best i l = (i + p)%nat /\
       nth_error l p = Some d /\ d < best /\
       (forall q e, nth_error l q = Some e -> d <= e) /\
       (forall q e, (q < p)%nat -> nth_error l q = Some e -> d < e)).
Proof.
  induction l as [| d0 t IH]; intros best_i best i; cbn [Numpy.argmin_from].
  - left. split; [reflexivity | constructor].
  - destruct (Rlt_dec d0 best) as [Hlt | Hge].
    + right. destruct (IH i d0 (S i)) as [[Hr Hall] | (p & d & Hr & Hp & Hd & Hmin & Hfirst)].
      * exists 0%nat, d0. rewrite Hr. split; [lia |]. split; [reflexivity |].
        split; [exact Hlt |]. split.
        -- intros [| q] e He; cbn [nth_error] in He.
           ++ inversion He; lra.
           ++ rewrite Forall_forall in Hall. apply nth_error_In in He. now apply Hall.
        -- intros q e Hq. lia.
      * exists (S p), d. rewrite Hr. split; [lia |]. split; [exact Hp |].
        split; [lra |]. split.
        -- intros [| q] e He; cbn [nth_error] in He.
           ++ inversion He; subst. lra.
           ++ now apply (Hmin q).
        -- intros [| q] e Hq He; cbn [nth_error] in He.
           ++ inversion He; subst. exact Hd.
           ++ apply (Hfirst q); [lia | exact He].
    + destruct (IH best_i best (S i)) as [[Hr Hall] | (p & d & Hr & Hp & Hd & Hmin & Hfirst)].
      * left. split; [exact Hr |]. constructor; [lra | exact Hall].
      * right. exists (S p), d. rewrite Hr. split; [lia |]. split; [exact Hp |].
        split; [exact Hd |]. split.
        -- intros [| q] e He; cbn [nth_error] in He.
           ++ inversion He; subst. lra.
           ++ now apply (Hmin q).
        -- intros [| q] e Hq He; cbn [nth_error] in He.
           ++ inversion He; subst. lra.
           ++ apply (Hfirst q); [lia | exact He].
Qed.

Lemma argmin_spec (l : list R) :
  l <> [] ->
  exists k m,
    Numpy.argmin l = Ok k /\ nth_error l k = Some m /\
    (forall q e, nth_error l q = Some e -> m <= e) /\
    (forall q e, (q < k)%nat -> nth_error l q = Some e -> m < e).
Proof.
  destruct l as [| d t]; [contradiction |]. intros _. cbn [Numpy.argmin].
  destruct (argmin_from_spec t 0%nat d 1%nat)
    as [[Hr Hall] | (p & m & Hr & Hp & Hm & Hmin & Hfirst)]; rewrite Hr.
  - exists 0%nat, d. split; [reflexivity |]. split; [reflexivity |]. split.
    + intros [| q] e He; cbn [nth_error] in He.
      * inversion He; lra.
      * rewrite Forall_forall in Hall. apply nth_error_In in He. now apply Hall.
    + intros q e Hq. lia.
  - exists (1 + p)%nat, m. split; [reflexivity |]. split; [exact Hp |]. split.
    + intros [| q] e He; cbn [nth_error] in He.
      * inversion He; subst. lra.
      * now apply (Hmin q).
    + intros [| q] e Hq He; cbn [nth_error] in He.
      * inversion He; subst. exact Hm.
      * apply (Hfirst q); [lia | exact He].
Qed.

(** X29: on a reference whose rows have at least two columns and with the
    previous index inside it, the re-anchoring returns the reference row
    of the window that is nearest to the vehicle, and the first of them
    when several are equally near. *)
Theorem reanchor_nearest (ref_trajectory : list (list R)) (sx sy stheta sv : R)
    (ref_index : Z) :
  (0 <= ref_index <= Z.of_nat (length ref_trajectory) - 1)%Z ->
  (forall row, In row ref_trajectory -> (2 <= length row)%nat) ->
  let distance := fun i : Z =>
    let row := nth (Z.to_nat i) ref_trajectory [] in
    Numpy.norm [nth 0 row 0 - sx; nth 1 row 0 - sy] in
  exists ref_index',
    reanchor ref_trajectory (sx, sy, stheta, sv) ref_index = Ok ref_index' /\
    forall i,
      (Z.max (ref_index - window_size) 0 <= i
       <= Z.min (ref_index + window_size) (Z.of_nat (length ref_trajectory) - 1))%Z ->
      distance ref_index' <= distance i /\
      ((i < ref_index')%Z -> distance ref_index' < distance i).
Proof.
  intros Hidx Hrows distance. unfold reanchor.
  set (max_ref_index := (Z.of_nat (length ref_trajectory) - 1)%Z) in *.
  set (search_start := Z.max (ref_index - window_size) 0).
  set (search_end := Z.min (ref_index + window_size) max_ref_index).
  assert (search_start <= search_end)%Z as Hwindow
    by (unfold search_start, search_end, window_size; lia).
  assert (0 <= search_start)%Z as Hstart by (unfold search_start; lia).
  assert (search_end <= max_ref_index)%Z as Hend by (unfold search_end; lia).
  set (search_indices := Numpy.arange search_start (search_end + 1)).
  set (point := fun i : Z => firstn 2 (nth (Z.to_nat i) ref_trajectory [])).
  assert (forall i, In i search_indices ->
            exists a b rest, nth (Z.to_nat i) ref_trajectory [] = a :: b :: rest /\
                             nth_error ref_trajectory (Z.to_nat i)
                             = Some (a :: b :: rest)) as Hrow.
  { intros i Hi. apply arange_In in Hi.
    destruct (nth_error ref_trajectory (Z.to_nat i)) as [row |] eqn:E.
    - pose proof (nth_error_In _ _ E) as Hin. apply Hrows in Hin.
      rewrite (nth_error_nth _ _ _ E).
      destruct row as [| a [| b rest]]; cbn [length] in Hin; try lia. eauto.
    - apply nth_error_None in E. unfold max_ref_index in Hend. lia. }
  rewrite (foldM_ext _ (fun acc i =>
             b <- (row <- getitem ref_trajectory (Z.to_nat i) ;; Ok (firstn 2 row)) ;;
             Ok (acc ++ [b])))
    by (intros acc i; now destruct (getitem ref_trajectory (Z.to_nat i))).
  rewrite (foldM_collect_map _ point).
  2:{ intros i Hi. destruct (Hrow i Hi) as (a & b & rest & Hnth & Herr).
      unfold getitem, point. now rewrite Herr, Hnth. }
  cbn [app bind].
  rewrite (foldM_ext _ (fun acc p =>
             b <- (d <- Numpy.sub p [sx; sy] ;; Ok (Numpy.norm d)) ;; Ok (acc ++ [b])))
    by (intros acc p; now destruct (Numpy.sub p [sx; sy])).
  rewrite (foldM_collect_map _
             (fun p => Numpy.norm [nth 0 p 0 - sx; nth 1 p 0 - sy])).
  2:{ intros p Hp. apply in_map_iff in Hp as (i & <- & Hi).
      destruct (Hrow i Hi) as (a & b & rest & Hnth & _).
      unfold point. rewrite Hnth. reflexivity. }
  cbn [app bind]. rewrite map_map.
  assert (forall i, In i search_indices ->
            Numpy.norm [nth 0 (point i) 0 - sx; nth 1 (point i) 0 - sy] = distance i)
    as Hdistance.
  { intros i Hi. destruct (Hrow i Hi) as (a & b & rest & Hnth & _).
    unfold point, distance. now rewrite Hnth. }
  rewrite (map_ext_in _ distance) by exact Hdistance.
  assert (length search_indices = Z.to_nat (search_end + 1 - search_start)) as Hlen
    by apply arange_length.
  destruct (argmin_spec (map distance search_indices))
    as (k & m & Hk & Hm & Hmin & Hfirst).
  { intros Hnil. apply (f_equal (@length R)) in Hnil.
    rewrite length_map, Hlen in Hnil. cbn [length] in Hnil. lia. }
  rewrite Hk. cbn [bind].
  assert (k < length search_indices)%nat as Hklt.
  { rewrite <- (length_map distance). apply nth_error_Some. now rewrite Hm. }
  unfold getitem. unfold search_indices at 1. rewrite arange_nth by lia.
  exists (search_start + Z.of_nat k)%Z. split; [reflexivity |].
  assert (forall q, (q < length search_indices)%nat ->
            nth_error (map distance search_indices) q
            = Some (distance (search_start + Z.of_nat q)%Z)) as Hentry.
  { intros q Hq. rewrite nth_error_map. unfold search_indices.
    rewrite arange_nth by lia. reflexivity. }
  rewrite Hentry in Hm by exact Hklt. inversion Hm as [Hmk].
  intros i Hi.
  assert (i = search_start + Z.of_nat (Z.to_nat (i - search_start)))%Z as Hi' by lia.
  assert (Z.to_nat (i - search_start) < length search_indices)%nat as Hq by lia.
  rewrite Hmk, Hi'. split.
  - apply (Hmin (Z.to_nat (i - search_start))). now apply Hentry.
  - intros Hbefore.
    apply (Hfirst (Z.to_nat (i - search_start))); [lia | now apply Hentry].
Qed.

End NearestReference.

Section NearestReferenceOnTheLot.
Import PyNum MPCController.

Lemma reanchor_nearest_witness :
  exists ref_index',
    reanchor [[0; 0; 0]; [1; 0; 0]; [2; 0; 0]] (0, 0, 0, 0) 2 = Ok ref_index'.
Proof.
  destruct (reanchor_nearest [[0; 0; 0]; [1; 0; 0]; [2; 0; 0]] 0 0 0 0 2)
    as (ref_index' & Hrun & _).
  - cbn [length]. lia.
  - intros row [<- | [<- | [<- | []]]]; cbn [length]; lia.
  - exists ref_index'. exact Hrun.
Defined.

End NearestReferenceOnTheLot.

Section ControlHistory.
Import PyNum MPCController.
Context {base : BaseController} {utils : Utils}.







End ControlHistory.

Section ControlHistoryOnTheLot.
Import PyNum MPCController Fixtures.



End ControlHistoryOnTheLot.
